(** * djfirebirdsql: the SQL-dialect translation layer

    A shallow embedding of [djfirebirdsql/base.py] and
    [djfirebirdsql/schema.py]: the value quoter [quote_value], the textual
    parameter substitution [convert_sql], the cursor wrapper, and the schema
    editor's [delete_model], [_column_sql] and DDL templates.

    Layout: the host facilities the source calls (Python's [str] methods,
    [binascii.hexlify], [datetime], the printf-style [%] operator) come
    first, in [Module Py]; then the two source files, one module each; the
    statements and their proofs follow the definitions. *)

From Stdlib Require Import String Ascii List ZArith Lia Bool DecimalString.
From Stdlib.Strings Require Import Byte.
From Stdlib Require DecimalZ DecimalPos.
Import ListNotations.
Local Open Scope string_scope.

(** ** Exceptions and results *)

(** The exception classes that the modelled code can raise or let through.
    The payload is the message (for [KeyError], the missing key). *)
Inductive exn : Type :=
| TypeError (msg : string)
| ValueError (msg : string)
| KeyError (key : string)
| OverflowError (msg : string)
| DatabaseError (msg : string)
| NotSupportedError (msg : string).

Inductive result (A : Type) : Type :=
| Ok (a : A)
| Raise (e : exn).
Arguments Ok {A} a.
Arguments Raise {A} e.

Definition bind {A B : Type} (r : result A) (k : A -> result B) : result B :=
  match r with
  | Ok a => k a
  | Raise e => Raise e
  end.

Notation "x <- c ;; k" := (bind c (fun x => k))
  (at level 61, c at next level, right associativity).

(** [for x in xs: ys.append(f(x))], where [f] may raise. *)
Fixpoint map_result {A B : Type} (f : A -> result B) (xs : list A)
  : result (list B) :=
  match xs with
  | [] => Ok []
  | x :: xs' => y <- f x ;; ys <- map_result f xs' ;; Ok (y :: ys)
  end.

(** ** Host facilities *)

Module Py.

(** A Python [str] is a [string], one [ascii] per character: the model
    covers the code points up to 255. *)

Definition char_code (c : ascii) : nat := nat_of_ascii c.

Definition squote : ascii := "'".
Definition dquote : ascii := ascii_of_nat 34.
Definition backslash : ascii := ascii_of_nat 92.

(** *** [str.replace] *)

(** Left-to-right, non-overlapping replacement of a non-empty [old];
    [skip] counts the characters of a match still to be dropped. *)
Fixpoint replace_from (old new s : string) (skip : nat) : string :=
  match s with
  | EmptyString => EmptyString
  | String c s' =>
      match skip with
      | S k => replace_from old new s' k
      | O =>
          if prefix old s
          then new ++ replace_from old new s' (String.length old - 1)
          else String c (replace_from old new s' 0)
      end
  end.

(** With an empty [old], Python puts [new] before every character and at
    the end. *)
Fixpoint replace_empty (new s : string) : string :=
  match s with
  | EmptyString => new
  | String c s' => new ++ String c (replace_empty new s')
  end.

Definition str_replace (s old new : string) : string :=
  match old with
  | EmptyString => replace_empty new s
  | _ => replace_from old new s 0
  end.

(** *** [binascii.hexlify] and [bytes.decode('ascii')] *)

Definition hex_digit (n : nat) : ascii :=
  match String.get n "0123456789abcdef" with
  | Some c => c
  | None => "0"%char
  end.

Definition byte_of_char (c : ascii) : byte := byte_of_ascii c.

(** Two lowercase hexadecimal digits per byte, high nibble first. *)
Fixpoint hexlify (b : list byte) : list byte :=
  match b with
  | [] => []
  | x :: b' =>
      let n := Byte.to_nat x in
      byte_of_char (hex_digit (n / 16))
        :: byte_of_char (hex_digit (n mod 16)) :: hexlify b'
  end.

(** [bytes.decode('ascii')]: a byte above 127 raises [UnicodeDecodeError]
    in Python; [hexlify] yields none, and the model maps every byte to the
    character of the same code. *)
Fixpoint decode_ascii (b : list byte) : string :=
  match b with
  | [] => EmptyString
  | x :: b' => String (ascii_of_byte x) (decode_ascii b')
  end.

(** *** [str()] of integers and booleans *)

(** [str(z)] for an [int], within the limit of the interpreter: [str]
    converts an integer of at most 4300 digits
    ([sys.int_max_str_digits]) and raises [ValueError] on a longer one.
    [str_int z] is the text for [z] within the limit, [str_int_defined];
    every statement below that returns or sends the text of an integer
    assumes it. *)
Definition int_max_str_digits : Z := 4300.

Definition str_int_defined (z : Z) : Prop :=
  (Z.abs z < 10 ^ int_max_str_digits)%Z.

Definition str_int (z : Z) : string := NilZero.string_of_int (Z.to_int z).

Definition str_bool (b : bool) : string := if b then "True" else "False".

(** Decimal text of a natural number, left-padded with zeros to [width]
    digits ([%02d], [%04d], [%06d]). *)
Fixpoint zeros (n : nat) : string :=
  match n with
  | O => EmptyString
  | S n' => String "0"%char (zeros n')
  end.

Definition zfill (width : nat) (z : Z) : string :=
  let s := str_int z in
  zeros (width - String.length s) ++ s.

(** *** [repr()] and [ascii()] of a [str] *)

Fixpoint contains_char (c : ascii) (s : string) : bool :=
  match s with
  | EmptyString => false
  | String d s' => Ascii.eqb c d || contains_char c s'
  end.

Definition hex_escape (c : ascii) : string :=
  let n := char_code c in
  String backslash (String "x"%char
    (String (hex_digit (n / 16)) (String (hex_digit (n mod 16)) EmptyString))).

(** [str.isprintable] on one character of the modelled range. *)
Definition is_printable (c : ascii) : bool :=
  let n := char_code c in
  ((32 <=? n)%nat && (n <? 127)%nat) || ((161 <=? n)%nat && negb (n =? 173)%nat).

Definition repr_char (quote : ascii) (ascii_only : bool) (c : ascii) : string :=
  let n := char_code c in
  if Ascii.eqb c quote || Ascii.eqb c backslash
  then String backslash (String c EmptyString)
  else if (n =? 9)%nat then "\t"
  else if (n =? 10)%nat then "\n"
  else if (n =? 13)%nat then "\r"
  else if (n <? 32)%nat || (n =? 127)%nat then hex_escape c
  else if (n <? 127)%nat then String c EmptyString
  else if ascii_only || negb (is_printable c) then hex_escape c
  else String c EmptyString.

Fixpoint repr_body (quote : ascii) (ascii_only : bool) (s : string) : string :=
  match s with
  | EmptyString => EmptyString
  | String c s' => repr_char quote ascii_only c ++ repr_body quote ascii_only s'
  end.

Definition repr_with (ascii_only : bool) (s : string) : string :=
  let quote :=
    if contains_char squote s && negb (contains_char dquote s)
    then dquote else squote in
  String quote (repr_body quote ascii_only s ++ String quote EmptyString).

Definition repr_str : string -> string := repr_with false.
Definition ascii_str : string -> string := repr_with true.

(** *** [datetime]: dates, times and timezone-aware datetimes *)

(** A [timedelta] is its total number of microseconds. *)
Definition timedelta : Type := Z.

Record date : Type := mkDate { year : Z; month : Z; day : Z }.

(** [utcoffset] is what [tzinfo.utcoffset(value)] returns: [None] both for
    a value without [tzinfo] and for a [tzinfo] that gives no offset. *)
Record time : Type := mkTime {
  hour : Z; minute : Z; second : Z; microsecond : Z;
  utcoffset : option timedelta
}.

Record datetime : Type := mkDateTime { dt_date : date; dt_time : time }.

Definition is_leap (y : Z) : bool :=
  (y mod 4 =? 0)%Z && (negb (y mod 100 =? 0)%Z || (y mod 400 =? 0)%Z).

Definition days_before_year (y : Z) : Z :=
  let p := (y - 1)%Z in (p * 365 + p / 4 - p / 100 + p / 400)%Z.

Definition days_in_month (y m : Z) : Z :=
  if (m =? 2)%Z && is_leap y then 29%Z
  else nth (Z.to_nat m) [0; 31; 28; 31; 30; 31; 30; 31; 31; 30; 31; 30; 31]%Z 0%Z.

Definition days_before_month_table : list Z :=
  [0; 0; 31; 59; 90; 120; 151; 181; 212; 243; 273; 304; 334]%Z.

Definition days_before_month (y m : Z) : Z :=
  (nth (Z.to_nat m) days_before_month_table 0
   + (if (2 <? m)%Z && is_leap y then 1 else 0))%Z.

Definition ymd2ord (d : date) : Z :=
  (days_before_year (year d) + days_before_month (year d) (month d) + day d)%Z.

Definition MAXORDINAL : Z := 3652059.

(** [_ord2ymd] of the standard library, on the ordinal [n] (1 is
    0001-01-01). *)
Definition ord2ymd (n : Z) : date :=
  let n0 := (n - 1)%Z in
  let n400 := (n0 / 146097)%Z in
  let r400 := (n0 mod 146097)%Z in
  let n100 := (r400 / 36524)%Z in
  let r100 := (r400 mod 36524)%Z in
  let n4 := (r100 / 1461)%Z in
  let r4 := (r100 mod 1461)%Z in
  let n1 := (r4 / 365)%Z in
  let r := (r4 mod 365)%Z in
  let y := (n400 * 400 + 1 + n100 * 100 + n4 * 4 + n1)%Z in
  if (n1 =? 4)%Z || (n100 =? 4)%Z then mkDate (y - 1) 12 31
  else
    let leapyear := (n1 =? 3)%Z && (negb (n4 =? 24)%Z || (n100 =? 3)%Z) in
    let m := Z.shiftr (r + 50) 5 in
    let preceding :=
      (nth (Z.to_nat m) days_before_month_table 0
       + (if (2 <? m)%Z && leapyear then 1 else 0))%Z in
    if (r <? preceding)%Z then
      let m' := (m - 1)%Z in
      let preceding' :=
        (preceding
         - (nth (Z.to_nat m') [0; 31; 28; 31; 30; 31; 30; 31; 31; 30; 31; 30; 31] 0
            + (if (m' =? 2)%Z && leapyear then 1 else 0)))%Z in
      mkDate y m' (r - preceding' + 1)
    else mkDate y m (r - preceding + 1).

Definition US_PER_SECOND : Z := 1000000.
Definition US_PER_DAY : Z := 86400 * 1000000.

(** The wall-clock reading of a datetime, in microseconds from the start
    of ordinal day 0, the time zone left aside. *)
Definition wall_clock (d : datetime) : Z :=
  let t := dt_time d in
  (ymd2ord (dt_date d) * US_PER_DAY
   + ((hour t * 3600 + minute t * 60 + second t) * US_PER_SECOND
      + microsecond t))%Z.

(** [datetime.__add__]: the fields of the shifted reading, with the same
    [tzinfo]; [OverflowError] outside 0001-01-01 .. 9999-12-31. *)
Definition add_timedelta (d : datetime) (delta : timedelta) : result datetime :=
  let total := (wall_clock d + delta)%Z in
  let days := (total / US_PER_DAY)%Z in
  let rest := (total mod US_PER_DAY)%Z in
  let secs := (rest / US_PER_SECOND)%Z in
  if (0 <? days)%Z && (days <=? MAXORDINAL)%Z then
    Ok (mkDateTime (ord2ymd days)
          (mkTime (secs / 3600) ((secs mod 3600) / 60) ((secs mod 3600) mod 60)
                  (rest mod US_PER_SECOND) (utcoffset (dt_time d))))
  else Raise (OverflowError "date value out of range").

Definition replace_tzinfo (d : datetime) (off : option timedelta) : datetime :=
  let t := dt_time d in
  mkDateTime (dt_date d)
    (mkTime (hour t) (minute t) (second t) (microsecond t) off).

(** [d.astimezone(timezone.utc)] for an aware [d]: subtract the offset,
    attach UTC (offset zero). A naive [d] would be read in the process's
    local zone; the source never does that, and the model leaves such a
    value as it is. *)
Definition astimezone_utc (d : datetime) : result datetime :=
  match utcoffset (dt_time d) with
  | Some off =>
      u <- add_timedelta d (- off)%Z ;; Ok (replace_tzinfo u (Some 0%Z))
  | None => Ok d
  end.

(** [str()] of the three classes is [isoformat], with a space between date
    and time. *)
Definition str_date (d : date) : string :=
  zfill 4 (year d) ++ "-" ++ zfill 2 (month d) ++ "-" ++ zfill 2 (day d).

Definition format_offset (off : option timedelta) : string :=
  match off with
  | None => EmptyString
  | Some o =>
      let sign := if (o <? 0)%Z then "-" else "+" in
      let a := Z.abs o in
      let hh := (a / (3600 * US_PER_SECOND))%Z in
      let r := (a mod (3600 * US_PER_SECOND))%Z in
      let mm := (r / (60 * US_PER_SECOND))%Z in
      let ss := (r mod (60 * US_PER_SECOND))%Z in
      sign ++ zfill 2 hh ++ ":" ++ zfill 2 mm
        ++ (if (ss =? 0)%Z then EmptyString
            else ":" ++ zfill 2 (ss / US_PER_SECOND)
                 ++ (if (ss mod US_PER_SECOND =? 0)%Z then EmptyString
                     else "." ++ zfill 6 (ss mod US_PER_SECOND)))
  end.

Definition str_time (t : time) : string :=
  zfill 2 (hour t) ++ ":" ++ zfill 2 (minute t) ++ ":" ++ zfill 2 (second t)
    ++ (if (microsecond t =? 0)%Z then EmptyString
        else "." ++ zfill 6 (microsecond t))
    ++ format_offset (utcoffset t).

Definition str_datetime (d : datetime) : string :=
  str_date (dt_date d) ++ " " ++ str_time (dt_time d).

(** The field ranges that the constructors of the three classes enforce. *)
Definition valid_date (d : date) : bool :=
  (1 <=? year d)%Z && (year d <=? 9999)%Z
  && (1 <=? month d)%Z && (month d <=? 12)%Z
  && (1 <=? day d)%Z && (day d <=? days_in_month (year d) (month d))%Z.

Definition valid_time (t : time) : bool :=
  (0 <=? hour t)%Z && (hour t <? 24)%Z
  && (0 <=? minute t)%Z && (minute t <? 60)%Z
  && (0 <=? second t)%Z && (second t <? 60)%Z
  && (0 <=? microsecond t)%Z && (microsecond t <? US_PER_SECOND)%Z
  && match utcoffset t with
     | None => true
     | Some o => (- US_PER_DAY <? o)%Z && (o <? US_PER_DAY)%Z
     end.

Definition valid_datetime (d : datetime) : bool :=
  valid_date (dt_date d) && valid_time (dt_time d).

(** *** The printf-style [%] operator on [str]

    [fmt % args] is modelled in two passes that together follow
    [PyUnicode_Format] of CPython 3.7 and later: [parse] reads the format
    string alone and yields the events in the order the formatter meets
    them; [run] plays the events against the arguments, and the first
    failing event decides the exception. Every argument the modelled code
    formats is a [str], or the mapping itself when a directive without key
    is met in mapping mode. A width large enough to exhaust memory is not
    modelled. *)

Record directive : Type := mkDirective {
  f_ljust : bool;            (* flag [-] *)
  f_sign : bool;             (* flag [+] *)
  f_blank : bool;            (* flag space *)
  f_alt : bool;              (* flag [#] *)
  f_zero : bool;             (* flag [0] *)
  f_width : option N;
  f_prec : option N
}.

(** A directive without flags, width or precision, as in [%s]. *)
Definition plain : directive :=
  mkDirective false false false false false None None.

Inductive event : Type :=
| ELit (c : ascii)                  (* a character copied to the output *)
| EKeyStart                         (* [%(]: the operand must be a mapping *)
| EKey (k : string)                 (* [%(k)]: look [k] up *)
| EStar                             (* [*] as width or precision: takes an int *)
| EConv (d : directive) (c : ascii) (* conversion [c]: takes an argument *)
| EBad (msg : string).              (* malformed: [ValueError(msg)] *)

Inductive pstate : Type :=
| SText                                  (* outside a directive *)
| SPercent                               (* just after [%] *)
| SKey (depth : nat) (acc : string)      (* inside [%( ... )] *)
| SFlags (d : directive)
| SWidth (d : directive)                 (* in the digits of the width *)
| SAfterStar (d : directive)             (* after [*] as the width *)
| SDot (d : directive)                   (* just after [.] *)
| SPrec (d : directive)                  (* in the digits of the precision *)
| SAfterStarPrec (d : directive)         (* after [.*] *)
| SLen (d : directive)                   (* after [h], [l] or [L] *)
| SStop.                                 (* after a malformed directive *)

Definition PY_SSIZE_T_MAX : N := 9223372036854775807.
Definition INT_MAX : N := 2147483647.

Definition is_digit (c : ascii) : bool :=
  (48 <=? char_code c)%nat && (char_code c <=? 57)%nat.

Definition digit_val (c : ascii) : N := N.of_nat (char_code c - 48).

Definition with_width (d : directive) (w : option N) : directive :=
  mkDirective (f_ljust d) (f_sign d) (f_blank d) (f_alt d) (f_zero d)
    w (f_prec d).

Definition with_prec (d : directive) (p : option N) : directive :=
  mkDirective (f_ljust d) (f_sign d) (f_blank d) (f_alt d) (f_zero d)
    (f_width d) p.

Definition conv_step (d : directive) (c : ascii) : list event * pstate :=
  ([EConv d c], SText).

Definition len_step (d : directive) (c : ascii) : list event * pstate :=
  if Ascii.eqb c "h" || Ascii.eqb c "l" || Ascii.eqb c "L"
  then ([], SLen d) else conv_step d c.

Definition dot_step (d : directive) (c : ascii) : list event * pstate :=
  if Ascii.eqb c "." then ([], SDot (with_prec d (Some 0%N)))
  else len_step d c.

Definition width_step (d : directive) (c : ascii) : list event * pstate :=
  if Ascii.eqb c "*" then ([EStar], SAfterStar d)
  else if is_digit c then ([], SWidth (with_width d (Some (digit_val c))))
  else dot_step d c.

Definition flags_step (d : directive) (c : ascii) : list event * pstate :=
  let '(mkDirective lj sg bl al ze w p) := d in
  if Ascii.eqb c "-" then ([], SFlags (mkDirective true sg bl al ze w p))
  else if Ascii.eqb c "+" then ([], SFlags (mkDirective lj true bl al ze w p))
  else if Ascii.eqb c " " then ([], SFlags (mkDirective lj sg true al ze w p))
  else if Ascii.eqb c "#" then ([], SFlags (mkDirective lj sg bl true ze w p))
  else if Ascii.eqb c "0" then ([], SFlags (mkDirective lj sg bl al true w p))
  else width_step d c.

Definition step (st : pstate) (c : ascii) : list event * pstate :=
  match st with
  | SText =>
      if Ascii.eqb c "%" then ([], SPercent) else ([ELit c], SText)
  | SPercent =>
      if Ascii.eqb c "%" then ([ELit "%"%char], SText)
      else if Ascii.eqb c "(" then ([EKeyStart], SKey 1 EmptyString)
      else flags_step plain c
  | SKey depth acc =>
      let depth' :=
        if Ascii.eqb c ")" then (depth - 1)%nat
        else if Ascii.eqb c "(" then S depth else depth in
      match depth' with
      | O => ([EKey acc], SFlags plain)
      | _ => ([], SKey depth' (acc ++ String c EmptyString))
      end
  | SFlags d => flags_step d c
  | SWidth d =>
      if is_digit c then
        let w := match f_width d with Some w => w | None => 0%N end in
        if (((PY_SSIZE_T_MAX - digit_val c) / 10) <? w)%N
        then ([EBad "width too big"], SStop)
        else ([], SWidth (with_width d (Some (w * 10 + digit_val c)%N)))
      else dot_step d c
  | SAfterStar d => dot_step d c
  | SDot d =>
      if Ascii.eqb c "*" then ([EStar], SAfterStarPrec d)
      else if is_digit c then ([], SPrec (with_prec d (Some (digit_val c))))
      else len_step d c
  | SPrec d =>
      if is_digit c then
        let p := match f_prec d with Some p => p | None => 0%N end in
        if (((INT_MAX - digit_val c) / 10) <? p)%N
        then ([EBad "precision too big"], SStop)
        else ([], SPrec (with_prec d (Some (p * 10 + digit_val c)%N)))
      else len_step d c
  | SAfterStarPrec d => len_step d c
  | SLen d => conv_step d c
  | SStop => ([], SStop)
  end.

Fixpoint scan (st : pstate) (fmt : string) : list event :=
  match fmt with
  | EmptyString =>
      match st with
      | SText | SStop => []
      | SKey _ _ => [EBad "incomplete format key"]
      | _ => [EBad "incomplete format"]
      end
  | String c fmt' => (fst (step st c) ++ scan (snd (step st c)) fmt')%list
  end.

Definition parse (fmt : string) : list event := scan SText fmt.

(** The right operand of [%]. *)
Definition pydict : Type := list (string * string).

Inductive fmt_args : Type :=
| Scalar (s : string)              (* a single [str] *)
| Tuple (l : list string)          (* a tuple of [str] *)
| Mapping (d : pydict).            (* a [dict] with [str] keys and values *)

Inductive fmt_arg : Type :=
| AStr (s : string)
| ADict (d : pydict).

(** What the formatter keeps between directives: the mapping, if the
    operand is one, and the arguments not yet taken. *)
Record fstate : Type := mkFState {
  fs_dict : option pydict;
  fs_pending : list fmt_arg
}.

Definition init (a : fmt_args) : fstate :=
  match a with
  | Scalar s => mkFState None [AStr s]
  | Tuple l => mkFState None (map AStr l)
  | Mapping d => mkFState (Some d) [ADict d]
  end.

Fixpoint dict_get (d : pydict) (k : string) : option string :=
  match d with
  | [] => None
  | (k', v) :: d' => if String.eqb k k' then Some v else dict_get d' k
  end.

Fixpoint repr_dict_items (ascii_only : bool) (d : pydict) : string :=
  match d with
  | [] => EmptyString
  | (k, v) :: d' =>
      repr_with ascii_only k ++ ": " ++ repr_with ascii_only v
        ++ match d' with
           | [] => EmptyString
           | _ => ", " ++ repr_dict_items ascii_only d'
           end
  end.

(** [str()] and [repr()] of a [dict] agree; [ascii()] escapes further. *)
Definition repr_dict (ascii_only : bool) (d : pydict) : string :=
  "{" ++ repr_dict_items ascii_only d ++ "}".

Fixpoint spaces (n : nat) : string :=
  match n with
  | O => EmptyString
  | S n' => String " "%char (spaces n')
  end.

Definition truncate (p : option N) (s : string) : string :=
  match p with
  | Some n => substring 0 (N.to_nat n) s
  | None => s
  end.

Definition pad (d : directive) (s : string) : string :=
  let w := match f_width d with Some w => N.to_nat w | None => O end in
  let fill := spaces (w - String.length s) in
  if f_ljust d then s ++ fill else fill ++ s.

Definition numeric_conv (c : ascii) : bool :=
  contains_char c "diuoxXeEfFgG".

(** Conversion [c] with directive [d] applied to its argument. The
    messages of the exceptions are shortened. *)
Definition format_arg (d : directive) (c : ascii) (a : fmt_arg) : result string :=
  if Ascii.eqb c "s" then
    Ok (pad d (truncate (f_prec d)
                 match a with AStr s => s | ADict m => repr_dict false m end))
  else if Ascii.eqb c "r" then
    Ok (pad d (truncate (f_prec d)
                 match a with
                 | AStr s => repr_str s
                 | ADict m => repr_dict false m
                 end))
  else if Ascii.eqb c "a" then
    Ok (pad d (truncate (f_prec d)
                 match a with
                 | AStr s => ascii_str s
                 | ADict m => repr_dict true m
                 end))
  else if Ascii.eqb c "c" then
    match a with
    | AStr (String x EmptyString) => Ok (pad d (String x EmptyString))
    | _ => Raise (TypeError "%c requires int or char")
    end
  else if numeric_conv c then Raise (TypeError "a number is required")
  else Raise (ValueError "unsupported format character").

Fixpoint run (evs : list event) (st : fstate) : result string :=
  match evs with
  | [] =>
      match fs_dict st, fs_pending st with
      | None, _ :: _ =>
          Raise (TypeError "not all arguments converted during string formatting")
      | _, _ => Ok EmptyString
      end
  | ELit c :: evs' => out <- run evs' st ;; Ok (String c out)
  | EKeyStart :: evs' =>
      match fs_dict st with
      | None => Raise (TypeError "format requires a mapping")
      | Some _ => run evs' st
      end
  | EKey k :: evs' =>
      match fs_dict st with
      | None => Raise (TypeError "format requires a mapping")
      | Some m =>
          match dict_get m k with
          | None => Raise (KeyError k)
          | Some v => run evs' (mkFState (Some m) [AStr v])
          end
      end
  | EStar :: _ =>
      match fs_pending st with
      | [] => Raise (TypeError "not enough arguments for format string")
      | _ :: _ => Raise (TypeError "* wants int")
      end
  | EConv d c :: evs' =>
      match fs_pending st with
      | [] => Raise (TypeError "not enough arguments for format string")
      | a :: rest =>
          piece <- format_arg d c a ;;
          out <- run evs' (mkFState (fs_dict st) rest) ;;
          Ok (piece ++ out)
      end
  | EBad msg :: _ => Raise (ValueError msg)
  end.

Definition format (fmt : string) (args : fmt_args) : result string :=
  run (parse fmt) (init args).

(** The directives of a format string, [%%] not being one: the number of
    arguments the formatter asks for. *)
Definition is_conv (e : event) : bool :=
  match e with EConv _ _ => true | _ => false end.

Definition marker_count (fmt : string) : nat :=
  List.length (filter is_conv (parse fmt)).

(** *** Runtime values *)

(** The values that reach the quoter. [VBytes] stands for [bytes],
    [bytearray] and a contiguous [memoryview] alike, given by the bytes of
    the buffer; [VOther] for an object of any other class ([float],
    [Decimal], ...), given by the text [str()] returns for it. *)
Inductive value : Type :=
| VNone
| VBool (b : bool)
| VInt (z : Z)
| VStr (s : string)
| VBytes (b : list byte)
| VDate (d : date)
| VTime (t : time)
| VDateTime (d : datetime)
| VOther (text : string).

End Py.

Import Py.

(** ** djfirebirdsql/base.py *)

Module Base.

(** [quote_value(value)]. The [isinstance] chain of the source is the
    order of the branches here; ["'%s'" % x] with a [str] (or a date, which
    [%s] turns into its [str()]) is [x] between two quotes, see
    [quoted_by_format]. *)
Definition quote_value (v : value) : string :=
  match v with
  | VDate d => "'" ++ str_date d ++ "'"
  | VTime t => "'" ++ str_time t ++ "'"
  | VDateTime d => "'" ++ str_datetime d ++ "'"
  | VStr s => "'" ++ str_replace s "'" "''" ++ "'"
  | VBytes b => "x'" ++ decode_ascii (hexlify b) ++ "'"
  | VNone => "NULL"
  | VBool b => str_bool b
  | VInt z => str_int z
  | VOther text => text
  end.

(** [timezone.is_aware(v)]: [v.utcoffset() is not None]. *)
Definition is_aware (d : datetime) : bool :=
  match utcoffset (dt_time d) with
  | Some _ => true
  | None => false
  end.

(** Lines 54 to 56: an aware datetime becomes
    [v.astimezone(timezone.utc).replace(tzinfo=None)], any other value is
    kept. *)
Definition to_naive_utc (p : value) : result value :=
  match p with
  | VDateTime d =>
      if is_aware d
      then u <- astimezone_utc d ;; Ok (VDateTime (replace_tzinfo u None))
      else Ok p
  | _ => Ok p
  end.

Definition convert_param (p : value) : result string :=
  v <- to_naive_utc p ;; Ok (quote_value v).

(** [convert_sql(query, params)]; [params] is [None], or a list or
    tuple. *)
Definition convert_sql (query : string) (params : option (list value))
  : result string :=
  match params with
  | None | Some [] => Ok query
  | Some ps =>
      converted_params <- map_result convert_param ps ;;
      match converted_params with
      | [x] => format query (Scalar x)
      | _ => format query (Tuple converted_params)
      end
  end.

(** *** The cursor *)

(** The driver, as far as the source uses it: what [Database.Cursor.execute]
    answers to a statement, given the statements it received before
    ([None]: no exception). *)
Definition driver : Type := list string -> string -> option exn.

(** Code that talks to the database: from the statements sent so far to a
    result and the statements sent after. A statement that the driver
    refuses has been sent all the same. *)
Definition db (A : Type) : Type := list string -> result A * list string.

Definition ret {A : Type} (a : A) : db A := fun sent => (Ok a, sent).

Definition throw {A : Type} (e : exn) : db A := fun sent => (Raise e, sent).

Definition and_then {A B : Type} (c : db A) (k : A -> db B) : db B :=
  fun sent =>
    match c sent with
    | (Ok a, sent') => k a sent'
    | (Raise e, sent') => (Raise e, sent')
    end.

Definition lift {A : Type} (r : result A) : db A :=
  match r with
  | Ok a => ret a
  | Raise e => throw e
  end.

(** [for x in xs: body(x)]. *)
Definition for_each {A : Type} (body : A -> db unit) : list A -> db unit :=
  fix loop (xs : list A) : db unit :=
    match xs with
    | [] => ret tt
    | x :: xs' => and_then (body x) (fun _ => loop xs')
    end.

(** [Database.Cursor.execute(self, query)]. *)
Definition driver_execute (drv : driver) (query : string) : db unit :=
  fun sent =>
    (match drv sent query with
     | None => Ok tt
     | Some e => Raise e
     end, (sent ++ [query])%list).

(** [FirebirdCursorWrapper.execute(query, params=None)]. *)
Definition execute (drv : driver) (query : string) (params : option (list value))
  : db unit :=
  and_then (lift (convert_sql query params)) (driver_execute drv).

(** [FirebirdCursorWrapper.executemany(query, param_list)]. *)
Definition executemany (drv : driver) (query : string)
  (param_list : list (option (list value))) : db unit :=
  for_each (fun params =>
              and_then (lift (convert_sql query params)) (driver_execute drv))
           param_list.

(** *** The connection parameters *)

(** A value of the settings: [None], a [str], or an [int] (a port may be
    given either way). *)
Inductive setting : Type :=
| SNone
| SStr (s : string)
| SInt (z : Z).

(** Truth value of a setting in an [if]. *)
Definition truthy (v : setting) : bool :=
  match v with
  | SNone => false
  | SStr EmptyString => false
  | SStr _ => true
  | SInt z => negb (z =? 0)%Z
  end.

(** A [dict] with [str] keys, in the order of the first insertion of its
    keys. *)
Definition settings : Type := list (string * setting).

Fixpoint dict_lookup (d : settings) (k : string) : option setting :=
  match d with
  | [] => None
  | (k', v) :: d' => if String.eqb k k' then Some v else dict_lookup d' k
  end.

(** [d[k] = v]. *)
Fixpoint dict_set (d : settings) (k : string) (v : setting) : settings :=
  match d with
  | [] => [(k, v)]
  | (k', v') :: d' =>
      if String.eqb k k' then (k, v) :: d' else (k', v') :: dict_set d' k v
  end.

(** [d.update(other)]. *)
Definition dict_update (d other : settings) : settings :=
  fold_left (fun acc kv => dict_set acc (fst kv) (snd kv)) other d.

(** The entries of [settings_dict] that [get_connection_params] reads. *)
Record settings_dict : Type := mkSettings {
  NAME : setting;
  OPTIONS : settings;
  USER : setting;
  PASSWORD : setting;
  HOST : setting;
  PORT : setting
}.

Inductive configured (A : Type) : Type :=
| Configured (a : A)
| ImproperlyConfigured (msg : string).
Arguments Configured {A} a.
Arguments ImproperlyConfigured {A} msg.

(** [DatabaseWrapper.get_connection_params()]. *)
Definition get_connection_params (settings_dict : settings_dict)
  : configured settings :=
  if negb (truthy (NAME settings_dict)) then
    ImproperlyConfigured
      "settings.DATABASES is improperly configured. Please supply the NAME value."
  else
    let conn_params := [("charset", SStr "UTF8")] in
    let conn_params := dict_set conn_params "database" (NAME settings_dict) in
    let conn_params := dict_update conn_params (OPTIONS settings_dict) in
    let conn_params :=
      if truthy (USER settings_dict)
      then dict_set conn_params "user" (USER settings_dict) else conn_params in
    let conn_params :=
      if truthy (PASSWORD settings_dict)
      then dict_set conn_params "password" (PASSWORD settings_dict)
      else conn_params in
    let conn_params :=
      if truthy (HOST settings_dict)
      then dict_set conn_params "host" (HOST settings_dict) else conn_params in
    let conn_params :=
      if truthy (PORT settings_dict)
      then dict_set conn_params "port" (PORT settings_dict) else conn_params in
    Configured conn_params.

End Base.

(** ** djfirebirdsql/schema.py *)

Module Schema.

(** The module has its own copy of [quote_value], the same text as the one
    of base.py. *)
Definition quote_value (v : value) : string :=
  match v with
  | VDate d => "'" ++ str_date d ++ "'"
  | VTime t => "'" ++ str_time t ++ "'"
  | VDateTime d => "'" ++ str_datetime d ++ "'"
  | VStr s => "'" ++ str_replace s "'" "''" ++ "'"
  | VBytes b => "x'" ++ decode_ascii (hexlify b) ++ "'"
  | VNone => "NULL"
  | VBool b => str_bool b
  | VInt z => str_int z
  | VOther text => text
  end.

(** *** The templates of [DatabaseSchemaEditor] *)

Definition sql_rename_table : string := "Rename table is not allowed".
Definition sql_delete_table : string := "DROP TABLE %(table)s".
Definition sql_create_column : string :=
  "ALTER TABLE %(table)s ADD %(column)s %(definition)s".
Definition sql_alter_column_type : string := "ALTER %(column)s TYPE %(type)s".
Definition sql_alter_column_default : string :=
  "ALTER COLUMN %(column)s SET DEFAULT %(default)s".
Definition sql_alter_column_no_default : string :=
  "ALTER COLUMN %(column)s DROP DEFAULT".
Definition sql_delete_column : string := "ALTER TABLE %(table)s DROP %(column)s".
Definition sql_rename_column : string :=
  "ALTER TABLE %(table)s ALTER %(old_column)s TO %(new_column)s".
Definition sql_create_fk : string :=
  "ALTER TABLE %(table)s ADD CONSTRAINT %(name)s FOREIGN KEY (%(column)s) REFERENCES %(to_table)s (%(to_column)s) ON DELETE CASCADE".
Definition sql_delete_fk : string :=
  "ALTER TABLE %(table)s DROP CONSTRAINT %(name)s".

(** The query of [_column_has_default], a literal in three quotes: five
    line breaks, the lines indented as in the source. *)
Definition newline : string := String (ascii_of_nat 10) EmptyString.

Definition column_has_default_sql : string :=
  newline
  ++ "            SELECT a.RDB$DEFAULT_VALUE" ++ newline
  ++ "            FROM RDB$RELATION_FIELDS a" ++ newline
  ++ "            WHERE UPPER(a.RDB$FIELD_NAME) = UPPER('%(column)s')" ++ newline
  ++ "            AND UPPER(a.RDB$RELATION_NAME) = UPPER('%(table_name)s')"
  ++ newline
  ++ "        ".

(** *** Models and fields *)

(** What the editor reads of a model: [_meta.db_table],
    [_meta.auto_created], and, for each field of
    [_meta.local_many_to_many], the model [field.remote_field.through]. *)
#[local] Unset Elimination Schemes.
Inductive model : Type :=
| Model (db_table : string) (auto_created : bool) (through_models : list model).
#[local] Set Elimination Schemes.

Definition db_table (m : model) : string :=
  match m with Model t _ _ => t end.

Definition auto_created (m : model) : bool :=
  match m with Model _ a _ => a end.

Definition through_models (m : model) : list model :=
  match m with Model _ _ l => l end.

(** Induction on a model, its through models first. *)
Fixpoint model_induction (P : model -> Prop)
  (step : forall t a l, Forall P l -> P (Model t a l)) (m : model) : P m :=
  match m with
  | Model t a l =>
      step t a l
        ((fix all (l : list model) : Forall P l :=
            match l with
            | [] => Forall_nil P
            | x :: l' => Forall_cons x (model_induction P step x) (all l')
            end) l)
  end.

(** What [_column_sql] reads of a field: [db_parameters(...)['type']],
    which is [None] for a field without a column, and the two flags. *)
Record field : Type := mkField {
  db_type : option string;
  primary_key : bool;
  unique : bool
}.

(** A row of [_get_references]: [r[0]] is the name of a foreign-key
    constraint, [r[1]] the table that holds it. *)
Definition reference : Type := (string * string)%type.

(** *** The collaborators of the editor

    The editor works through its connection. Of these, only the cursor is
    in the two files; the others are taken as given:
    - [cursor_driver]: the driver behind [connection.cursor()];
    - [get_references]: [connection.introspection._get_references(cursor,
      table)], a catalog query, whose rows depend on the statements
      executed so far;
    - [quote_name]: [connection.ops.quote_name];
    - [ignores_table_name_case]: the feature flag of that name;
    - [upper], [lower]: [str.upper] and [str.lower]. *)
Class Connection : Type := {
  cursor_driver : Base.driver;
  get_references : list string -> string -> result (list reference);
  quote_name : string -> string;
  ignores_table_name_case : bool;
  upper : string -> string;
  lower : string -> string
}.

Section Editor.

Context {conn : Connection}.

Import Base.

(** [BaseDatabaseSchemaEditor.execute(sql, params=())] of Django, which the
    class of schema.py inherits: outside SQL collection it runs
    [cursor.execute(sql, params)] on a cursor of the connection, that is
    [FirebirdCursorWrapper.execute] with the empty tuple. *)
Definition editor_execute (sql : string) : db unit :=
  Base.execute cursor_driver sql (Some []).

(** [DatabaseSchemaEditor.prepare_default(value)]: the [quote_value] of
    schema.py. *)
Definition prepare_default (v : value) : string := Schema.quote_value v.

(** [BaseDatabaseSchemaEditor.alter_db_table(model, old_db_table,
    new_db_table)] of Django, inherited: the class of schema.py sets the
    template [sql_rename_table] and does not override the method, which is
<<
    if (old_db_table == new_db_table or
        (self.connection.features.ignores_table_name_case and
            old_db_table.lower() == new_db_table.lower())):
        return
    self.execute(self.sql_rename_table % {
        "old_table": self.quote_name(old_db_table),
        "new_table": self.quote_name(new_db_table),
    })
>>
    followed by the renaming of the deferred statements, which sends
    nothing. *)
Definition alter_db_table (m : model) (old_db_table new_db_table : string)
  : db unit :=
  if String.eqb old_db_table new_db_table
     || (ignores_table_name_case
         && String.eqb (lower old_db_table) (lower new_db_table))
  then ret tt
  else
    and_then
      (lift (format sql_rename_table
               (Mapping [("old_table", quote_name old_db_table);
                         ("new_table", quote_name new_db_table)])))
      editor_execute.

(** [BaseDatabaseSchemaEditor.delete_model(model)] of Django, which
    [super().delete_model(model)] reaches:
<<
    for field in model._meta.local_many_to_many:
        if field.remote_field.through._meta.auto_created:
            self.delete_model(field.remote_field.through)
    self.execute(self.sql_delete_table % {
        "table": self.quote_name(model._meta.db_table),
    })
>>
    followed by the removal of deferred statements, which sends nothing.
    [self_delete_model] is the method that [self.delete_model] resolves
    to, the one of schema.py. *)
Definition base_delete_model (self_delete_model : model -> db unit) (m : model)
  : db unit :=
  and_then
    (for_each (fun through =>
                 if auto_created through then self_delete_model through
                 else ret tt)
              (through_models m))
    (fun _ =>
       and_then
         (lift (format sql_delete_table
                  (Mapping [("table", quote_name (db_table m))])))
         editor_execute).

(** The statement of the loop body of [delete_model]. *)
Definition drop_reference (r : reference) : db unit :=
  and_then
    (lift (format sql_delete_fk
             (Mapping [("name", fst r); ("table", upper (snd r))])))
    editor_execute.

(** [DatabaseSchemaEditor.delete_model(model)]. *)
Fixpoint delete_model (m : model) : db unit :=
  and_then
    (and_then
       (fun sent => (get_references sent (db_table m), sent))
       (for_each drop_reference))
    (fun _ => base_delete_model delete_model m).

(** [DatabaseSchemaEditor._column_sql(model, field)]. With no type,
    [sql += ...] adds a [str] to [None]. *)
Definition _column_sql (m : model) (f : field) : result (option string) :=
  let sql := db_type f in
  if primary_key f then
    match sql with
    | Some ty => Ok (Some (ty ++ " PRIMARY KEY"))
    | None => Raise (TypeError "unsupported operand type(s) for +=")
    end
  else if unique f then
    match sql with
    | Some ty => Ok (Some (ty ++ " UNIQUE"))
    | None => Raise (TypeError "unsupported operand type(s) for +=")
    end
  else Ok sql.

(** [DatabaseSchemaEditor._column_has_default(params)], [params] a
    [dict]. The inherited [execute] has no [return]: [value] is [None]. *)
Definition _column_has_default (params : pydict) : db bool :=
  and_then
    (lift (format column_has_default_sql (Mapping params)))
    (fun sql =>
       and_then (editor_execute sql)
         (fun value => ret (match value with tt => false end))).

End Editor.

End Schema.

(** ** The notions of the specification *)

Module Spec.

(** *** Reading a literal back *)

(** The body of a quoted SQL string, read from just after the opening
    quote: two quotes in a row stand for one, a single quote ends the
    literal. The result is the text and what follows the literal. *)
Fixpoint read_quoted (s : string) : option (string * string) :=
  match s with
  | EmptyString => None
  | String c s' =>
      if Ascii.eqb c squote then
        match s' with
        | String c' s'' =>
            if Ascii.eqb c' squote then
              match read_quoted s'' with
              | Some (text, rest) => Some (String squote text, rest)
              | None => None
              end
            else Some (EmptyString, s')
        | EmptyString => Some (EmptyString, EmptyString)
        end
      else
        match read_quoted s' with
        | Some (text, rest) => Some (String c text, rest)
        | None => None
        end
  end.

Definition read_string_literal (s : string) : option (string * string) :=
  match s with
  | String c s' => if Ascii.eqb c squote then read_quoted s' else None
  | EmptyString => None
  end.

(** Every quote doubled, every other character kept: the escaping the
    specification describes. *)
Fixpoint double_quotes (s : string) : string :=
  match s with
  | EmptyString => EmptyString
  | String c s' =>
      if Ascii.eqb c squote then String squote (String squote (double_quotes s'))
      else String c (double_quotes s')
  end.

(** The value of a hexadecimal digit, of either case. *)
Definition hex_value (c : ascii) : option nat :=
  let n := char_code c in
  if (48 <=? n)%nat && (n <=? 57)%nat then Some (n - 48)%nat
  else if (97 <=? n)%nat && (n <=? 102)%nat then Some (n - 87)%nat
  else if (65 <=? n)%nat && (n <=? 70)%nat then Some (n - 55)%nat
  else None.

Fixpoint unhexlify (s : string) : option (list byte) :=
  match s with
  | EmptyString => Some []
  | String hi (String lo s') =>
      match hex_value hi, hex_value lo, unhexlify s' with
      | Some h, Some l, Some b =>
          match Byte.of_nat (h * 16 + l) with
          | Some x => Some (x :: b)
          | None => None
          end
      | _, _, _ => None
      end
  | String _ EmptyString => None
  end.

(** The digits of a binary literal [x'...']. *)
Definition read_binary_literal (s : string) : option (list byte) :=
  match s with
  | String x (String q s') =>
      if (Ascii.eqb x "x" || Ascii.eqb x "X") && Ascii.eqb q squote then
        match read_quoted s' with
        | Some (digits, EmptyString) => unhexlify digits
        | _ => None
        end
      else None
  | _ => None
  end.

(** The lowercase hexadecimal text of a byte sequence, digit by digit from
    the two nibbles of each byte. *)
Definition lower_hex_digit (n : N) : ascii :=
  if (n <? 10)%N then ascii_of_N (48 + n) else ascii_of_N (87 + n).

Fixpoint lowercase_hex (b : list byte) : string :=
  match b with
  | [] => EmptyString
  | x :: b' =>
      let n := Byte.to_N x in
      String (lower_hex_digit (N.shiftr n 4))
        (String (lower_hex_digit (N.land n 15)) (lowercase_hex b'))
  end.

Definition ascii_upper (c : ascii) : ascii :=
  let n := char_code c in
  if (97 <=? n)%nat && (n <=? 122)%nat then ascii_of_nat (n - 32) else c.

Fixpoint uppercase (s : string) : string :=
  match s with
  | EmptyString => EmptyString
  | String c s' => String (ascii_upper c) (uppercase s')
  end.

Definition is_lower_hex (c : ascii) : bool := contains_char c "0123456789abcdef".

Fixpoint all_chars (p : ascii -> bool) (s : string) : bool :=
  match s with
  | EmptyString => true
  | String c s' => p c && all_chars p s'
  end.

(** *** Query templates *)

(** A query template: SQL text with positional markers. In the text of a
    template a marker is [%s] and a percent sign of the SQL is doubled. *)
Inductive piece : Type :=
| Text (s : string)
| Marker.

Definition template : Type := list piece.

Fixpoint escape_percent (s : string) : string :=
  match s with
  | EmptyString => EmptyString
  | String c s' =>
      if Ascii.eqb c "%" then String c (String c (escape_percent s'))
      else String c (escape_percent s')
  end.

Fixpoint template_text (t : template) : string :=
  match t with
  | [] => EmptyString
  | Text s :: t' => escape_percent s ++ template_text t'
  | Marker :: t' => "%s" ++ template_text t'
  end.

Fixpoint markers (t : template) : nat :=
  match t with
  | [] => O
  | Text _ :: t' => markers t'
  | Marker :: t' => S (markers t')
  end.

(** The literals put at the successive markers, in order. *)
Fixpoint fill (t : template) (literals : list string) : string :=
  match t with
  | [] => EmptyString
  | Text s :: t' => s ++ fill t' literals
  | Marker :: t' =>
      match literals with
      | l :: ls => l ++ fill t' ls
      | [] => fill t' []
      end
  end.

(** What the formatter reads in the text of a template: the characters
    of the SQL text, and one unadorned [%s] directive per marker. *)
Fixpoint literal_events (s : string) : list event :=
  match s with
  | EmptyString => []
  | String c s' => ELit c :: literal_events s'
  end.

Fixpoint template_events (t : template) : list event :=
  match t with
  | [] => []
  | Text s :: t' => (literal_events s ++ template_events t')%list
  | Marker :: t' => EConv plain "s" :: template_events t'
  end.

(** The format strings that are read like the text of a template: text,
    and directives [%s] without flags, width or precision. *)
Definition plain_event (e : event) : bool :=
  match e with
  | ELit _ => true
  | EConv (mkDirective false false false false false None None) c =>
      Ascii.eqb c "s"
  | _ => false
  end.

Fixpoint template_of_events (evs : list event) : template :=
  match evs with
  | [] => []
  | ELit c :: evs' => Text (String c EmptyString) :: template_of_events evs'
  | EConv _ _ :: evs' => Marker :: template_of_events evs'
  | _ :: evs' => template_of_events evs'
  end.

(** A failure of the formatting facility. *)
Definition formatting_error (e : exn) : Prop :=
  match e with
  | TypeError _ | ValueError _ => True
  | _ => False
  end.

(** *** Datetimes in UTC *)

(** [p] holds for [n] consecutive integers from [start] on. *)
Fixpoint all_from (p : Z -> bool) (start : Z) (n : nat) : bool :=
  match n with
  | O => true
  | S k => p start && all_from p (start + 1) k
  end.

(** The ordinal [n] is the ordinal of the date it is turned into, and that
    date has a month and a day that exist. *)
Definition day_ok (n : Z) : bool :=
  let d := ord2ymd n in
  (ymd2ord d =? n)%Z
  && (1 <=? year d)%Z
  && (1 <=? month d)%Z && (month d <=? 12)%Z
  && (1 <=? day d)%Z && (day d <=? days_in_month (year d) (month d))%Z.

(** The readings of the datetimes that exist: from 0001-01-01 00:00:00 to
    the last microsecond of 9999-12-31. *)
Definition in_datetime_range (reading : Z) : Prop :=
  (US_PER_DAY <= reading < (MAXORDINAL + 1) * US_PER_DAY)%Z.

(** A value that [convert_sql] can put in UTC: any value but an aware
    datetime whose UTC reading no datetime has. *)
Definition utc_representable (p : value) : Prop :=
  match p with
  | VDateTime d =>
      match utcoffset (dt_time d) with
      | Some off => in_datetime_range (wall_clock d - off)
      | None => True
      end
  | _ => True
  end.

(** [p'] is [p] as a naive UTC value: for an aware datetime, a valid
    datetime without offset whose reading is that of [p] less its offset;
    for any other value, [p] itself. *)
Definition naive_utc_of (p p' : value) : Prop :=
  match p with
  | VDateTime d =>
      match utcoffset (dt_time d) with
      | Some off =>
          exists u,
            p' = VDateTime u
            /\ utcoffset (dt_time u) = None
            /\ wall_clock u = (wall_clock d - off)%Z
            /\ valid_datetime u = true
      | None => p' = p
      end
  | _ => p' = p
  end.

(** *** Values that the quoter can write *)

(** A value that [quote_value] has a literal for: any value but an
    integer of more than 4300 digits, on which [str] raises. *)
Definition quotable (v : value) : Prop :=
  match v with
  | VInt z => str_int_defined z
  | _ => True
  end.

(** *** Statements of the schema editor *)

Definition is_drop_table (q : string) : bool := prefix "DROP TABLE " q.

(** The driver accepts the statements [qs], sent one after the other
    after [sent]. *)
Fixpoint accepts (drv : Base.driver) (sent : list string) (qs : list string)
  : Prop :=
  match qs with
  | [] => True
  | q :: qs' => drv sent q = None /\ accepts drv (sent ++ [q])%list qs'
  end.

Definition has_auto_created_through (m : Schema.model) : bool :=
  existsb Schema.auto_created (Schema.through_models m).

Section Statements.

Context {conn : Schema.Connection}.

(** What the driver answers to [query] after [sent]. *)
Definition answer (sent : list string) (query : string) : result unit :=
  match Schema.cursor_driver sent query with
  | None => Ok tt
  | Some e => Raise e
  end.

Definition drop_constraint_statement (r : Schema.reference) : string :=
  "ALTER TABLE " ++ Schema.upper (snd r) ++ " DROP CONSTRAINT " ++ fst r.

Definition drop_table_statement (m : Schema.model) : string :=
  "DROP TABLE " ++ Schema.quote_name (Schema.db_table m).

(** The editor rejects the renaming by itself: an exception that says the
    operation is not supported, and nothing sent. *)
Definition rename_rejected (m : Schema.model) (old_table new_table : string)
  (sent : list string) : Prop :=
  exists msg,
    Schema.alter_db_table m old_table new_table sent
    = (Raise (NotSupportedError msg), sent).

End Statements.

(** *** A sample connection

    A database that accepts every statement; its catalog holds one foreign
    key, from the through table BOOK_AUTHORS to BOOK, until the statement
    that drops it has been executed. *)
Definition sample_drop : string :=
  "ALTER TABLE BOOK_AUTHORS DROP CONSTRAINT FK_BOOK".

Definition sample_references (sent : list string) (table : string)
  : result (list Schema.reference) :=
  if String.eqb table "BOOK" && negb (existsb (String.eqb sample_drop) sent)
  then Ok [("FK_BOOK", "book_authors")]
  else Ok [].

Definition sample_connection : Schema.Connection := {|
  Schema.cursor_driver := fun _ _ => None;
  Schema.get_references := sample_references;
  Schema.quote_name := fun name => name;
  Schema.ignores_table_name_case := false;
  Schema.upper := uppercase;
  Schema.lower := fun name => name
|}.

(** A database that refuses every statement. *)
Definition refusing_connection : Schema.Connection := {|
  Schema.cursor_driver := fun _ _ => Some (DatabaseError "Dynamic SQL Error");
  Schema.get_references := fun _ _ => Ok [];
  Schema.quote_name := fun name => name;
  Schema.ignores_table_name_case := false;
  Schema.upper := uppercase;
  Schema.lower := fun name => name
|}.

Definition book_authors : Schema.model := Schema.Model "BOOK_AUTHORS" true [].
Definition book : Schema.model := Schema.Model "BOOK" false [book_authors].

(** The same table, with a through model written by hand. *)
Definition book_explicit : Schema.model :=
  Schema.Model "BOOK" false [Schema.Model "BOOK_AUTHORS" false []].

Definition sample_aware : datetime :=
  mkDateTime (mkDate 2020 1 1) (mkTime 1 30 0 0 (Some 7200000000%Z)).

Definition earliest_aware : datetime :=
  mkDateTime (mkDate 1 1 1) (mkTime 0 0 0 0 (Some 3600000000%Z)).

End Spec.

(** ** Further notions *)

Module Extra.

Import Spec.

(** *** Reading numbers and dates back *)

(** The integer that a decimal text denotes. *)
Definition read_int (s : string) : option Z :=
  option_map Z.of_int (NilZero.int_of_string s).

Definition digit_or_minus (c : ascii) : bool :=
  is_digit c || Ascii.eqb c "-".

(** [n] decimal digits at the front of [s], after the digits that gave
    [acc]: their value, and the rest of [s]. *)
Fixpoint read_digits (n : nat) (acc : Z) (s : string) : option (Z * string) :=
  match n with
  | O => Some (acc, s)
  | S n' =>
      match s with
      | String c s' =>
          if is_digit c
          then read_digits n' (acc * 10 + Z.of_nat (char_code c - 48))%Z s'
          else None
      | EmptyString => None
      end
  end.

(** A date written [YYYY-MM-DD], and what follows it. *)
Definition read_date (s : string) : option (date * string) :=
  match read_digits 4 0 s with
  | Some (y, String c1 s1) =>
      if Ascii.eqb c1 "-" then
        match read_digits 2 0 s1 with
        | Some (m, String c2 s2) =>
            if Ascii.eqb c2 "-" then
              match read_digits 2 0 s2 with
              | Some (d, rest) => Some (mkDate y m d, rest)
              | None => None
              end
            else None
        | _ => None
        end
      else None
  | _ => None
  end.

(** A quoted date, as a whole literal. *)
Definition read_date_literal (s : string) : option date :=
  match s with
  | String q s' =>
      if Ascii.eqb q squote then
        match read_date s' with
        | Some (d, String q' EmptyString) =>
            if Ascii.eqb q' squote then Some d else None
        | _ => None
        end
      else None
  | EmptyString => None
  end.

(** [zfill width z] is [width] digits that read as [z]. *)
Definition zfill_ok (width : nat) (z : Z) : bool :=
  match read_digits width 0 (zfill width z) with
  | Some (v, EmptyString) => (v =? z)%Z
  | _ => false
  end.

(** *** Templates with named fields *)

(** A template formatted with a mapping: text, and fields [%(key)s]. *)
Inductive kpiece : Type :=
| KText (s : string)
| KField (key : string).

Fixpoint keyed_text (t : list kpiece) : string :=
  match t with
  | [] => EmptyString
  | KText s :: t' => escape_percent s ++ keyed_text t'
  | KField k :: t' => "%(" ++ k ++ ")s" ++ keyed_text t'
  end.

Fixpoint keyed_events (t : list kpiece) : list event :=
  match t with
  | [] => []
  | KText s :: t' => (literal_events s ++ keyed_events t')%list
  | KField k :: t' => EKeyStart :: EKey k :: EConv plain "s" :: keyed_events t'
  end.

(** The values of the mapping at the fields, or the first key that the
    mapping lacks. *)
Fixpoint fill_keyed (t : list kpiece) (d : pydict) : result string :=
  match t with
  | [] => Ok EmptyString
  | KText s :: t' => out <- fill_keyed t' d ;; Ok (s ++ out)
  | KField k :: t' =>
      match dict_get d k with
      | None => Raise (KeyError k)
      | Some v => out <- fill_keyed t' d ;; Ok (v ++ out)
      end
  end.

Definition no_paren (c : ascii) : bool :=
  negb (Ascii.eqb c "(" || Ascii.eqb c ")").

Definition plain_keys (t : list kpiece) : bool :=
  forallb (fun p => match p with
                    | KText _ => true
                    | KField k => all_chars no_paren k
                    end) t.

(** The templates of the schema editor, each with its text and fields. *)
Definition editor_templates : list (string * list kpiece) :=
  [ (Schema.sql_rename_table, [KText "Rename table is not allowed"]);
    (Schema.sql_delete_table, [KText "DROP TABLE "; KField "table"]);
    (Schema.sql_create_column,
     [KText "ALTER TABLE "; KField "table"; KText " ADD "; KField "column";
      KText " "; KField "definition"]);
    (Schema.sql_alter_column_type,
     [KText "ALTER "; KField "column"; KText " TYPE "; KField "type"]);
    (Schema.sql_alter_column_default,
     [KText "ALTER COLUMN "; KField "column"; KText " SET DEFAULT ";
      KField "default"]);
    (Schema.sql_alter_column_no_default,
     [KText "ALTER COLUMN "; KField "column"; KText " DROP DEFAULT"]);
    (Schema.sql_delete_column,
     [KText "ALTER TABLE "; KField "table"; KText " DROP "; KField "column"]);
    (Schema.sql_rename_column,
     [KText "ALTER TABLE "; KField "table"; KText " ALTER ";
      KField "old_column"; KText " TO "; KField "new_column"]);
    (Schema.sql_create_fk,
     [KText "ALTER TABLE "; KField "table"; KText " ADD CONSTRAINT ";
      KField "name"; KText " FOREIGN KEY ("; KField "column";
      KText ") REFERENCES "; KField "to_table"; KText " ("; KField "to_column";
      KText ") ON DELETE CASCADE"]);
    (Schema.sql_delete_fk,
     [KText "ALTER TABLE "; KField "table"; KText " DROP CONSTRAINT ";
      KField "name"]) ].

(** The statement that [_column_has_default] sends for a column and a
    table. *)
Definition column_has_default_statement (column table_name : string) : string :=
  Schema.newline
  ++ "            SELECT a.RDB$DEFAULT_VALUE" ++ Schema.newline
  ++ "            FROM RDB$RELATION_FIELDS a" ++ Schema.newline
  ++ "            WHERE UPPER(a.RDB$FIELD_NAME) = UPPER('" ++ column ++ "')"
  ++ Schema.newline
  ++ "            AND UPPER(a.RDB$RELATION_NAME) = UPPER('" ++ table_name ++ "')"
  ++ Schema.newline
  ++ "        ".

(** The query of [_column_has_default], as text and fields. *)
Definition column_has_default_pieces : list kpiece :=
  [ KText (Schema.newline
           ++ "            SELECT a.RDB$DEFAULT_VALUE" ++ Schema.newline
           ++ "            FROM RDB$RELATION_FIELDS a" ++ Schema.newline
           ++ "            WHERE UPPER(a.RDB$FIELD_NAME) = UPPER('");
    KField "column";
    KText ("')" ++ Schema.newline
           ++ "            AND UPPER(a.RDB$RELATION_NAME) = UPPER('");
    KField "table_name";
    KText ("')" ++ Schema.newline ++ "        ") ].

(** A database that refuses to alter a table; its catalog is the one of
    the sample connection. *)
Definition locked_connection : Schema.Connection := {|
  Schema.cursor_driver := fun _ q =>
    if prefix "ALTER TABLE" q then Some (DatabaseError "object in use")
    else None;
  Schema.get_references := sample_references;
  Schema.quote_name := fun name => name;
  Schema.ignores_table_name_case := false;
  Schema.upper := uppercase;
  Schema.lower := fun name => name
|}.

(** *** What the deletion of a model sends *)

Section Deletion.

Context {conn : Schema.Connection}.

(** What the deletion of the auto-created through tables among [ts]
    sends, one table after the other, from the statements [sent] on;
    [del] is what the deletion of one model sends. *)
Definition through_statements
  (del : Schema.model -> list string -> list string)
  : list Schema.model -> list string -> list string :=
  fix loop (ts : list Schema.model) (sent : list string) : list string :=
    match ts with
    | [] => []
    | t :: ts' =>
        let stmts := if Schema.auto_created t then del t sent else [] in
        (stmts ++ loop ts' (sent ++ stmts))%list
    end.

(** The statements of the deletion of a model, after the statements
    [sent]: a drop-constraint statement for each row that the catalog
    has for its table, in the order of the rows; then, for each
    auto-created through table in the order of the fields, all the
    statements of the deletion of that table, its own rows being read
    when its turn comes; then the [DROP TABLE] of the model. *)
Fixpoint deletion_statements (m : Schema.model) (sent : list string)
  : list string :=
  match m with
  | Schema.Model table _ through =>
      let drops :=
        match Schema.get_references sent table with
        | Ok refs => map drop_constraint_statement refs
        | Raise _ => []
        end in
      (drops
       ++ through_statements deletion_statements through (sent ++ drops)
       ++ [drop_table_statement m])%list
  end.

End Deletion.

(** *** Values whose literal does not depend on a time zone *)

(** Every value but an aware datetime. *)
Definition not_aware (v : value) : Prop :=
  match v with
  | VDateTime d => utcoffset (dt_time d) = None
  | _ => True
  end.

(** *** The connection parameters *)

(** What the parameters hold at key [k], read off the settings: a setting
    that is set, else the option of that name, else the default. *)
Definition expected_param (s : Base.settings_dict) (k : string)
  : option Base.setting :=
  if String.eqb k "port" && Base.truthy (Base.PORT s) then Some (Base.PORT s)
  else if String.eqb k "host" && Base.truthy (Base.HOST s) then Some (Base.HOST s)
  else if String.eqb k "password" && Base.truthy (Base.PASSWORD s)
  then Some (Base.PASSWORD s)
  else if String.eqb k "user" && Base.truthy (Base.USER s) then Some (Base.USER s)
  else
    match Base.dict_lookup (Base.OPTIONS s) k with
    | Some v => Some v
    | None =>
        if String.eqb k "database" then Some (Base.NAME s)
        else if String.eqb k "charset" then Some (Base.SStr "UTF8")
        else None
    end.

Definition sample_settings : Base.settings_dict :=
  Base.mkSettings (Base.SStr "/data/app.fdb")
    [("charset", Base.SStr "WIN1252"); ("user", Base.SStr "guest");
     ("role", Base.SStr "READER")]
    (Base.SStr "sysdba") (Base.SStr EmptyString) (Base.SStr "db.local")
    (Base.SInt 3050).

Definition sample_later : datetime :=
  mkDateTime (mkDate 2020 1 1) (mkTime 5 0 0 0 (Some 19800000000%Z)).

End Extra.

(** * Properties *)

Import Spec.

(** ** Strings *)

Lemma append_nil_r (s : string) : s ++ EmptyString = s.
Proof. induction s as [|c s IH]; simpl; [reflexivity | now rewrite IH]. Qed.

(** ** The quoter on text (C1) *)

(** [str.replace] with the one-character pattern doubles each quote. *)
Lemma replace_quote_doubles (s : string) :
  str_replace s "'" "''" = double_quotes s.
Proof.
  unfold str_replace.
  induction s as [|c s IH]; [reflexivity|].
  cbn [replace_from double_quotes prefix]. unfold squote.
  destruct (ascii_dec "'" c) as [E | NE].
  - subst c. rewrite Ascii.eqb_refl.
    destruct s; cbn [String.length Nat.sub append]; now rewrite IH.
  - destruct (Ascii.eqb_spec c "'"%char) as [E | _]; [congruence|].
    now rewrite IH.
Qed.

(** Reading back the doubled text up to the closing quote gives the text
    again, whatever follows the literal, unless a quote follows it. *)
Lemma read_quoted_doubled (v rest : string) :
  prefix "'" rest = false ->
  read_quoted (double_quotes v ++ String squote rest) = Some (v, rest).
Proof.
  intros Hrest. unfold squote.
  induction v as [|c v IH].
  - cbn. destruct rest as [|r rest]; [reflexivity|]. unfold squote.
    change (prefix "'" (String r rest))
      with (if ascii_dec "'" r then prefix EmptyString rest else false) in Hrest.
    destruct (ascii_dec "'" r) as [E | NE].
    + destruct rest; cbn in Hrest; discriminate.
    + destruct (Ascii.eqb_spec r "'"%char) as [E | _]; [congruence|reflexivity].
  - cbn [double_quotes]. unfold squote.
    destruct (Ascii.eqb_spec c "'"%char) as [E | NE].
    + subst c. cbn [append read_quoted]. unfold squote.
      rewrite Ascii.eqb_refl. now rewrite IH.
    + cbn [append read_quoted]. unfold squote.
      destruct (Ascii.eqb_spec c "'"%char) as [E | _]; [contradiction|].
      now rewrite IH.
Qed.

(** C1. For every text [v], both copies of [quote_value] return [v] with
    each single quote doubled and nothing else changed (a backslash is an
    ordinary character), between two single quotes; reading the literal
    back, two quotes in a row standing for one, yields [v] and consumes
    the whole literal. *)
Theorem quote_text_round_trip (v : string) :
  Base.quote_value (VStr v) = "'" ++ double_quotes v ++ "'"
  /\ Schema.quote_value (VStr v) = "'" ++ double_quotes v ++ "'"
  /\ read_string_literal (Base.quote_value (VStr v)) = Some (v, EmptyString).
Proof.
  cbn [Base.quote_value Schema.quote_value].
  rewrite replace_quote_doubles.
  repeat split.
  cbn [append read_string_literal]. unfold squote at 1.
  rewrite Ascii.eqb_refl.
  apply (read_quoted_doubled v EmptyString). reflexivity.
Qed.

(** A quote is doubled; a backslash, a percent sign, a double quote are
    not touched. *)
Example quote_text_sample :
  Base.quote_value (VStr "it's 100% \N") = "'it''s 100% \N'"
  /\ read_string_literal ("'it''s 100% \N' AND b = 1")
     = Some ("it's 100% \N", " AND b = 1").
Proof. split; reflexivity. Qed.

(** ** The quoter on binary values (C6) *)

(** The step of a proof that goes through the 256 bytes. *)
Ltac by_byte x := destruct x; reflexivity.

Lemma hexlify_lowercase_hex (b : list byte) :
  decode_ascii (hexlify b) = lowercase_hex b.
Proof.
  induction b as [|x b IH]; [reflexivity|].
  cbn [hexlify decode_ascii lowercase_hex]. rewrite IH.
  generalize (lowercase_hex b) as tail. intros tail. by_byte x.
Qed.

Lemma lowercase_hex_digits (b : list byte) :
  all_chars is_lower_hex (lowercase_hex b) = true.
Proof.
  induction b as [|x b IH]; [reflexivity|].
  cbn [lowercase_hex all_chars]. rewrite IH. by_byte x.
Qed.

Lemma unhexlify_lowercase_hex (b : list byte) :
  unhexlify (lowercase_hex b) = Some b.
Proof.
  induction b as [|x b IH]; [reflexivity|].
  cbn [lowercase_hex unhexlify]. rewrite IH. by_byte x.
Qed.

Lemma unhexlify_uppercase_hex (b : list byte) :
  unhexlify (uppercase (lowercase_hex b)) = Some b.
Proof.
  induction b as [|x b IH]; [reflexivity|].
  cbn [lowercase_hex uppercase unhexlify]. rewrite IH. by_byte x.
Qed.

Lemma uppercase_append (a b : string) :
  uppercase (a ++ b) = uppercase a ++ uppercase b.
Proof. induction a as [|c a IH]; cbn; [reflexivity | now rewrite IH]. Qed.

(** Hexadecimal digits hold no quote: the literal ends at its closing
    quote. *)
Lemma read_quoted_hex (b : list byte) :
  read_quoted (lowercase_hex b ++ "'") = Some (lowercase_hex b, EmptyString)
  /\ read_quoted (uppercase (lowercase_hex b) ++ "'")
     = Some (uppercase (lowercase_hex b), EmptyString).
Proof.
  induction b as [|x b [IHl IHu]]; [split; reflexivity|].
  cbn [lowercase_hex uppercase append read_quoted].
  split.
  - generalize dependent (lowercase_hex b). intros tail IHl _.
    destruct x; cbn; rewrite IHl; reflexivity.
  - generalize dependent (uppercase (lowercase_hex b)). intros tail IHu.
    destruct x; cbn; rewrite IHu; reflexivity.
Qed.

(** C6. For every byte sequence [b], both copies of [quote_value] return
    [x'], the lowercase hexadecimal digits of [b], and a closing quote;
    decoding the digits of that literal gives [b] back, and so does
    decoding the literal written in upper case. *)
Theorem quote_binary_hex (b : list byte) :
  Base.quote_value (VBytes b) = "x'" ++ lowercase_hex b ++ "'"
  /\ Schema.quote_value (VBytes b) = "x'" ++ lowercase_hex b ++ "'"
  /\ all_chars is_lower_hex (lowercase_hex b) = true
  /\ read_binary_literal (Base.quote_value (VBytes b)) = Some b
  /\ read_binary_literal (uppercase (Base.quote_value (VBytes b))) = Some b.
Proof.
  cbn [Base.quote_value Schema.quote_value].
  rewrite hexlify_lowercase_hex.
  destruct (read_quoted_hex b) as [Hl Hu].
  repeat split.
  - apply lowercase_hex_digits.
  - cbn. rewrite Hl. apply unhexlify_lowercase_hex.
  - rewrite uppercase_append. cbn [append uppercase].
    rewrite uppercase_append.
    change (uppercase "'") with "'".
    change (ascii_upper "x") with "X"%char.
    change (ascii_upper "'") with "'"%char.
    cbn. rewrite Hu. apply unhexlify_uppercase_hex.
Qed.

(** ** The quoter on null (C9) *)

(** C9. [quote_value(None)] is the text [NULL]: four characters, upper
    case, no quote around it; in both copies of the function. *)
Theorem quote_null :
  Base.quote_value VNone = "NULL"
  /\ Schema.quote_value VNone = "NULL"
  /\ String.length (Base.quote_value VNone) = 4
  /\ contains_char squote (Base.quote_value VNone) = false.
Proof. repeat split. Qed.

(** ** Rendering without values (C7) *)

(** C7. With an empty sequence of values, and with no sequence at all,
    [convert_sql] returns the template as it is, markers included. *)
Theorem render_without_values (template : string) :
  Base.convert_sql template (Some []) = Ok template
  /\ Base.convert_sql template None = Ok template.
Proof. split; reflexivity. Qed.

(** The early return matters: the formatter itself refuses a marker that
    has no value. *)
Example format_marker_without_value :
  format "a = %s" (Tuple [])
  = Raise (TypeError "not enough arguments for format string")
  /\ Base.convert_sql "a = %s" (Some []) = Ok "a = %s".
Proof. split; reflexivity. Qed.

(** ** Column definitions (C5) *)

(** C5. For a field with type string [ty], [_column_sql] returns [ty]
    followed by [ PRIMARY KEY] when the primary-key flag is set, whatever
    the unique flag; by [ UNIQUE], once, when only the unique flag is set;
    by nothing when neither is. *)
Theorem column_definition (m : Schema.model) (ty : string) (uq : bool) :
  Schema._column_sql m (Schema.mkField (Some ty) true uq)
    = Ok (Some (ty ++ " PRIMARY KEY"))
  /\ Schema._column_sql m (Schema.mkField (Some ty) false true)
    = Ok (Some (ty ++ " UNIQUE"))
  /\ Schema._column_sql m (Schema.mkField (Some ty) false false) = Ok (Some ty).
Proof. repeat split. Qed.

(** A field without a type string: the flags make the method fail, and
    without them it returns [None]. *)
Example column_without_type (m : Schema.model) :
  Schema._column_sql m (Schema.mkField None true false)
    = Raise (TypeError "unsupported operand type(s) for +=")
  /\ Schema._column_sql m (Schema.mkField None false false) = Ok None.
Proof. split; reflexivity. Qed.

(** ** The formatter on templates *)

Lemma scan_text (s rest : string) :
  scan SText (escape_percent s ++ rest)
  = (literal_events s ++ scan SText rest)%list.
Proof.
  induction s as [|c s IH]; [reflexivity|].
  cbn [escape_percent].
  destruct (Ascii.eqb_spec c "%"%char) as [E | NE].
  - subst c. cbn [append scan literal_events]. cbn [step fst snd].
    cbn. now rewrite IH.
  - cbn [append scan literal_events]. cbn [step].
    destruct (Ascii.eqb_spec c "%"%char) as [E | _]; [contradiction|].
    cbn. now rewrite IH.
Qed.

Lemma scan_marker (rest : string) :
  scan SText ("%s" ++ rest) = EConv plain "s" :: scan SText rest.
Proof. reflexivity. Qed.

Lemma parse_template (t : template) :
  parse (template_text t) = template_events t.
Proof.
  unfold parse.
  induction t as [|[s|] t IH]; [reflexivity| |].
  - cbn [template_text template_events]. now rewrite scan_text, IH.
  - cbn [template_text template_events]. now rewrite scan_marker, IH.
Qed.

Lemma filter_literal_events (s : string) : filter is_conv (literal_events s) = [].
Proof. induction s as [|c s IH]; [reflexivity | exact IH]. Qed.

(** The markers of a template are the directives of its text. *)
Lemma marker_count_template (t : template) :
  marker_count (template_text t) = markers t.
Proof.
  unfold marker_count. rewrite parse_template.
  induction t as [|[s|] t IH]; [reflexivity| |].
  - cbn [template_events markers].
    now rewrite filter_app, filter_literal_events.
  - cbn. now rewrite IH.
Qed.

Lemma run_literal_events (s : string) (evs : list event) (st : fstate) :
  run (literal_events s ++ evs) st = (out <- run evs st ;; Ok (s ++ out)).
Proof.
  induction s as [|c s IH]; cbn.
  - destruct (run evs st); reflexivity.
  - rewrite IH. destruct (run evs st); reflexivity.
Qed.

(** Played against as many literals as it has markers, a template yields
    its text with the literals at the markers, in order. *)
Lemma run_template (t : template) (literals : list string) :
  List.length literals = markers t ->
  run (template_events t) (mkFState None (map AStr literals))
  = Ok (fill t literals).
Proof.
  revert literals.
  induction t as [|[s|] t IH]; intros literals Hlen.
  - destruct literals; [reflexivity | discriminate].
  - cbn [template_events fill]. rewrite run_literal_events.
    now rewrite (IH literals Hlen).
  - destruct literals as [|l ls]; [discriminate|].
    injection Hlen as Hlen.
    cbn [template_events fill map run fs_pending fs_dict].
    rewrite (IH ls Hlen).
    reflexivity.
Qed.

(** A single [str] as the right operand is formatted like the tuple that
    holds it. *)
Lemma scalar_as_tuple (fmt x : string) :
  format fmt (Scalar x) = format fmt (Tuple [x]).
Proof. reflexivity. Qed.

(** ["'%s'" % x] is [x] between quotes, as [quote_value] has it. *)
Lemma quoted_by_format (x : string) :
  format "'%s'" (Scalar x) = Ok ("'" ++ x ++ "'")
  /\ format "x'%s'" (Scalar x) = Ok ("x'" ++ x ++ "'").
Proof. split; reflexivity. Qed.

Lemma map_result_length {A B : Type} (f : A -> result B) (xs : list A) (ys : list B) :
  map_result f xs = Ok ys -> List.length ys = List.length xs.
Proof.
  revert ys. induction xs as [|x xs IH]; intros ys H; cbn in H.
  - injection H as <-. reflexivity.
  - destruct (f x); [|discriminate]. cbn in H.
    destruct (map_result f xs) as [zs|]; [|discriminate]. cbn in H.
    injection H as <-. cbn. now rewrite (IH zs eq_refl).
Qed.

Lemma map_result_convert_param (values : list value) :
  map_result Base.convert_param values
  = (normal <- map_result Base.to_naive_utc values ;;
     Ok (map Base.quote_value normal)).
Proof.
  induction values as [|v values IH]; [reflexivity|].
  cbn [map_result]. rewrite IH. unfold Base.convert_param.
  destruct (Base.to_naive_utc v); [|reflexivity]. cbn.
  destruct (map_result Base.to_naive_utc values); reflexivity.
Qed.

(** [convert_sql] on a non-empty sequence: the literals, then the
    formatter on all of them; the scalar operand of the one-value case
    makes no difference. *)
Lemma convert_sql_nonempty (query : string) (values : list value) :
  values <> [] ->
  Base.convert_sql query (Some values)
  = (literals <- map_result Base.convert_param values ;;
     format query (Tuple literals)).
Proof.
  intros Hne. destruct values as [|v values]; [contradiction|].
  unfold Base.convert_sql.
  destruct (map_result Base.convert_param (v :: values)) as [lits|]; [|reflexivity].
  cbn. destruct lits as [|x [|y lits]]; reflexivity.
Qed.

(** ** Format strings read like templates *)

(** A format string that the formatter reads as text and unadorned [%s]
    directives is rendered as the template with that text and these
    markers: the templates leave no such format string out. *)
Lemma template_of_plain_events (evs : list event) :
  forallb plain_event evs = true ->
  template_events (template_of_events evs) = evs.
Proof.
  induction evs as [|ev evs IH]; intros H; [reflexivity|].
  cbn [forallb] in H. apply andb_prop in H as [Hev H].
  destruct ev as [c| |k| |d c|msg]; try discriminate.
  - cbn. now rewrite (IH H).
  - destruct d as [[] [] [] [] [] [w|] [p0|]]; try discriminate.
    cbn in Hev. apply Ascii.eqb_eq in Hev. subst c.
    cbn. now rewrite (IH H).
Qed.

Lemma markers_of_events (evs : list event) :
  markers (template_of_events evs) = List.length (filter is_conv evs).
Proof.
  induction evs as [|ev evs IH]; [reflexivity|].
  destruct ev; cbn; now rewrite ?IH.
Qed.

Lemma render_plain_format_string (query : string) (values : list value) :
  forallb plain_event (parse query) = true ->
  values <> [] ->
  List.length values = marker_count query ->
  Forall quotable values ->
  Base.convert_sql query (Some values)
  = (normal <- map_result Base.to_naive_utc values ;;
     Ok (fill (template_of_events (parse query)) (map Base.quote_value normal))).
Proof.
  intros Hplain Hne Hlen _.
  rewrite (convert_sql_nonempty _ _ Hne), map_result_convert_param.
  destruct (map_result Base.to_naive_utc values) as [normal|] eqn:E; [|reflexivity].
  cbn. unfold format.
  rewrite <- (template_of_plain_events _ Hplain) at 1. cbn [init].
  apply run_template.
  rewrite length_map, (map_result_length _ _ _ E), markers_of_events.
  exact Hlen.
Qed.

(** ** A count of values that differs from the count of markers (C8) *)

Lemma format_arg_error (d : directive) (c : ascii) (a : fmt_arg) (e : exn) :
  format_arg d c a = Raise e -> formatting_error e.
Proof.
  unfold format_arg.
  repeat match goal with
         | |- context [if ?b then _ else _] => destruct b
         end;
    try discriminate;
    try (intros H; injection H as <-; exact I).
  destruct a as [[|x [|y s]]|m]; try discriminate;
    intros H; injection H as <-; exact I.
Qed.

(** Without a mapping, the formatter raises nothing but [TypeError] and
    [ValueError]. *)
Lemma run_error_formatting (evs : list event) (pending : list fmt_arg) (e : exn) :
  run evs (mkFState None pending) = Raise e -> formatting_error e.
Proof.
  revert pending.
  induction evs as [|ev evs IH]; intros pending H.
  - cbn in H. destruct pending; [discriminate|].
    injection H as <-. exact I.
  - destruct ev as [c| |k| |d c|msg]; cbn in H.
    + destruct (run evs _) eqn:E; [discriminate|].
      cbn in H. injection H as <-. exact (IH _ E).
    + injection H as <-. exact I.
    + injection H as <-. exact I.
    + destruct pending; injection H as <-; exact I.
    + destruct pending as [|a rest]; [injection H as <-; exact I|].
      destruct (format_arg d c a) eqn:Ea; cbn in H.
      * destruct (run evs _) eqn:E; [discriminate|].
        cbn in H. injection H as <-. exact (IH _ E).
      * injection H as <-. exact (format_arg_error _ _ _ _ Ea).
    + injection H as <-. exact I.
Qed.

(** Without a mapping, the formatter returns a string only when the
    directives are as many as the arguments. *)
Lemma run_ok_count (evs : list event) (pending : list fmt_arg) (out : string) :
  run evs (mkFState None pending) = Ok out ->
  List.length (filter is_conv evs) = List.length pending.
Proof.
  revert pending out.
  induction evs as [|ev evs IH]; intros pending out H.
  - cbn in H. destruct pending; [reflexivity | discriminate].
  - destruct ev as [c| |k| |d c|msg]; cbn in H; try discriminate.
    + destruct (run evs _) eqn:E; [|discriminate]. exact (IH _ _ E).
    + destruct pending; discriminate.
    + destruct pending as [|a rest]; [discriminate|].
      destruct (format_arg d c a); [|discriminate]. cbn in H.
      destruct (run evs _) eqn:E; [|discriminate].
      cbn. now rewrite (IH _ _ E).
Qed.

Lemma format_count_mismatch (fmt : string) (literals : list string) :
  List.length literals <> marker_count fmt ->
  exists e, format fmt (Tuple literals) = Raise e /\ formatting_error e.
Proof.
  intros Hne. unfold format. cbn [init].
  destruct (run (parse fmt) _) as [out|e] eqn:E.
  - apply run_ok_count in E. rewrite length_map in E.
    unfold marker_count in Hne. congruence.
  - exists e. split; [reflexivity|]. exact (run_error_formatting _ _ _ E).
Qed.

(** C8, as the code has it. For every format string and every non-empty
    sequence of values whose length is not the number of directives of the
    format string, [convert_sql] returns no string: it raises a
    [TypeError] or [ValueError] of the formatter, or, the values being
    converted before the formatter is called, the exception that the
    conversion of an aware datetime among them has raised. *)
Theorem render_count_mismatch (query : string) (values : list value) :
  values <> [] ->
  List.length values <> marker_count query ->
  exists e,
    Base.convert_sql query (Some values) = Raise e
    /\ (formatting_error e \/ map_result Base.convert_param values = Raise e).
Proof.
  intros Hne Hlen.
  rewrite (convert_sql_nonempty _ _ Hne).
  destruct (map_result Base.convert_param values) as [literals|e] eqn:E.
  - cbn. destruct (format_count_mismatch query literals) as [e [He Hf]].
    + now rewrite (map_result_length _ _ _ E).
    + exists e. split; [exact He | left; exact Hf].
  - exists e. split; [reflexivity | right; reflexivity].
Qed.

Lemma render_count_mismatch_witness :
  exists e,
    Base.convert_sql "a = %s AND b = %s" (Some [VInt 1]) = Raise e
    /\ (formatting_error e
        \/ map_result Base.convert_param [VInt 1] = Raise e).
Proof.
  apply (render_count_mismatch "a = %s AND b = %s" [VInt 1]).
  - discriminate.
  - vm_compute. discriminate.
Defined.

(** What the formatter says in the two directions of the mismatch. *)
Example render_too_few_values :
  Base.convert_sql "a = %s AND b = %s" (Some [VInt 1])
  = Raise (TypeError "not enough arguments for format string").
Proof. reflexivity. Qed.

Example render_too_many_values :
  Base.convert_sql "a = %s" (Some [VInt 1; VInt 2])
  = Raise (TypeError "not all arguments converted during string formatting").
Proof. reflexivity. Qed.

(** One value for two markers, the value an aware datetime whose UTC form
    would lie before 0001-01-01: the failure is the [OverflowError] of the
    conversion, not one of the formatter. *)
Lemma render_mismatch_not_formatting_error :
  [VDateTime earliest_aware] <> []
  /\ List.length [VDateTime earliest_aware] <> marker_count "a = %s AND b = %s"
  /\ Base.convert_sql "a = %s AND b = %s" (Some [VDateTime earliest_aware])
     = Raise (OverflowError "date value out of range")
  /\ ~ formatting_error (OverflowError "date value out of range").
Proof.
  repeat split; try discriminate.
  intros H. exact H.
Qed.

(** ** The calendar *)

Lemma all_from_spec (p : Z -> bool) (n : nat) (start k : Z) :
  all_from p start n = true ->
  (start <= k < start + Z.of_nat n)%Z -> p k = true.
Proof.
  revert start.
  induction n as [|n IH]; intros start H Hk; [lia|].
  cbn [all_from] in H. apply andb_prop in H as [H0 H1].
  destruct (Z.eq_dec k start) as [-> | NE]; [exact H0|].
  apply (IH (start + 1)%Z H1). lia.
Qed.

(** The 146097 days of one cycle of 400 years, checked one by one. *)
Lemma cycle_checked : all_from day_ok 1 (Z.to_nat 146097) = true.
Proof. vm_cast_no_check (eq_refl true). Qed.

Lemma day_ok_in_cycle (n : Z) : (1 <= n <= 146097)%Z -> day_ok n = true.
Proof.
  intros H. apply (all_from_spec day_ok (Z.to_nat 146097) 1 n cycle_checked).
  lia.
Qed.

Local Open Scope Z_scope.

Ltac euclid := Z.to_euclidean_division_equations; lia.

Lemma is_leap_shift (y q : Z) : is_leap (y + 400 * q) = is_leap y.
Proof.
  unfold is_leap.
  replace ((y + 400 * q) mod 4) with (y mod 4) by euclid.
  replace ((y + 400 * q) mod 100) with (y mod 100) by euclid.
  replace ((y + 400 * q) mod 400) with (y mod 400) by euclid.
  reflexivity.
Qed.

Lemma days_before_year_shift (y q : Z) :
  days_before_year (y + 400 * q) = days_before_year y + 146097 * q.
Proof. unfold days_before_year. euclid. Qed.

Lemma ymd2ord_shift (y m d q : Z) :
  ymd2ord (mkDate (y + 400 * q) m d) = ymd2ord (mkDate y m d) + 146097 * q.
Proof.
  unfold ymd2ord, days_before_month. cbn [year month day].
  rewrite is_leap_shift, days_before_year_shift. lia.
Qed.

Lemma days_in_month_shift (y m q : Z) :
  days_in_month (y + 400 * q) m = days_in_month y m.
Proof. unfold days_in_month. now rewrite is_leap_shift. Qed.

Lemma ord2ymd_shift (n : Z) :
  let q := (n - 1) / 146097 in
  let r := (n - 1) mod 146097 in
  ord2ymd n
  = mkDate (year (ord2ymd (r + 1)) + 400 * q)
           (month (ord2ymd (r + 1))) (day (ord2ymd (r + 1))).
Proof.
  intros q r.
  assert (Hr : 0 <= r < 146097) by (subst r; apply Z.mod_pos_bound; lia).
  unfold ord2ymd.
  replace (r + 1 - 1) with r by lia.
  rewrite (Z.div_small r 146097 Hr), (Z.mod_small r 146097 Hr).
  fold q. fold r.
  repeat match goal with
         | |- context [if ?b then _ else _] => destruct b
         end; cbn [year month day]; f_equal; lia.
Qed.

Lemma days_before_month_nonneg (y m : Z) : 0 <= days_before_month y m.
Proof.
  unfold days_before_month.
  assert (0 <= nth (Z.to_nat m) days_before_month_table 0).
  { unfold days_before_month_table.
    generalize (Z.to_nat m) as k. intros k.
    do 13 (destruct k as [|k]; [cbn; lia|]).
    destruct k; cbn; lia. }
  destruct (_ && _); lia.
Qed.

(** Every ordinal from 1 on is the ordinal of the date it is turned into,
    and that date exists. *)
Lemma ord_round_trip (n : Z) :
  1 <= n ->
  let d := ord2ymd n in
  ymd2ord d = n
  /\ 1 <= year d
  /\ 1 <= month d <= 12
  /\ 1 <= day d <= days_in_month (year d) (month d).
Proof.
  intros Hn.
  pose (q := (n - 1) / 146097). pose (r := (n - 1) mod 146097).
  assert (Hr : 0 <= r < 146097) by (subst r; apply Z.mod_pos_bound; lia).
  assert (Hq : 0 <= q) by (subst q; apply Z.div_pos; lia).
  assert (Hn' : n = r + 1 + 146097 * q).
  { subst q r. pose proof (Z.div_mod (n - 1) 146097). lia. }
  cbv zeta. rewrite (ord2ymd_shift n). fold q. fold r.
  pose proof (day_ok_in_cycle (r + 1) ltac:(lia)) as Hok.
  unfold day_ok in Hok. cbv zeta in Hok.
  destruct (ord2ymd (r + 1)) as [y m d]. cbn [year month day] in *.
  repeat (apply andb_prop in Hok as [Hok ?]).
  rewrite ymd2ord_shift, days_in_month_shift.
  repeat split; try lia.
Qed.

Lemma ord2ymd_valid (n : Z) :
  1 <= n <= MAXORDINAL -> valid_date (ord2ymd n) = true.
Proof.
  intros [Hlo Hhi].
  destruct (ord_round_trip n Hlo) as (Hrt & Hy & Hm & Hd).
  assert (Hy' : year (ord2ymd n) <= 9999).
  { destruct (Z_le_gt_dec (year (ord2ymd n)) 9999) as [|Hgt]; [assumption|].
    exfalso. unfold ymd2ord in Hrt.
    pose proof (days_before_month_nonneg (year (ord2ymd n)) (month (ord2ymd n))).
    assert (3652059 <= days_before_year (year (ord2ymd n))).
    { unfold days_before_year. Z.to_euclidean_division_equations; lia. }
    unfold MAXORDINAL in Hhi. lia. }
  unfold valid_date.
  repeat (apply andb_true_intro; split); lia.
Qed.

Lemma add_timedelta_in_range (d : datetime) (delta : timedelta) :
  in_datetime_range (wall_clock d + delta) ->
  exists u,
    add_timedelta d delta = Ok u
    /\ wall_clock u = wall_clock d + delta
    /\ valid_date (dt_date u) = true
    /\ (0 <= hour (dt_time u) < 24
        /\ 0 <= minute (dt_time u) < 60
        /\ 0 <= second (dt_time u) < 60
        /\ 0 <= microsecond (dt_time u) < US_PER_SECOND)
    /\ utcoffset (dt_time u) = utcoffset (dt_time d).
Proof.
  unfold in_datetime_range, add_timedelta.
  generalize (wall_clock d + delta) as total. intros total Hrange.
  assert (Hdays : 1 <= total / US_PER_DAY <= MAXORDINAL).
  { unfold US_PER_DAY, MAXORDINAL in *. Z.to_euclidean_division_equations; lia. }
  replace ((0 <? total / US_PER_DAY) && (total / US_PER_DAY <=? MAXORDINAL))
    with true by (symmetry; apply andb_true_intro; split; lia).
  eexists. split; [reflexivity|].
  destruct (ord_round_trip (total / US_PER_DAY) ltac:(lia)) as (Hrt & _).
  repeat split; cbn [dt_date dt_time hour minute second microsecond utcoffset];
    try (apply ord2ymd_valid; lia);
    try (unfold US_PER_DAY, US_PER_SECOND; euclid).
  unfold wall_clock. cbn [dt_date dt_time hour minute second microsecond].
  rewrite Hrt. unfold US_PER_DAY, US_PER_SECOND. euclid.
Qed.

Local Close Scope Z_scope.

Lemma wall_clock_replace_tzinfo (d : datetime) (off : option timedelta) :
  wall_clock (replace_tzinfo d off) = wall_clock d.
Proof. reflexivity. Qed.

(** An aware datetime whose UTC reading exists becomes a valid naive
    datetime with that reading. *)
Lemma to_naive_utc_aware (d : datetime) (off : timedelta) :
  utcoffset (dt_time d) = Some off ->
  in_datetime_range (wall_clock d - off) ->
  exists u,
    Base.to_naive_utc (VDateTime d) = Ok (VDateTime u)
    /\ utcoffset (dt_time u) = None
    /\ wall_clock u = (wall_clock d - off)%Z
    /\ valid_datetime u = true.
Proof.
  intros Hoff Hrange.
  destruct (add_timedelta_in_range d (- off)%Z) as (u & Hu & Hw & Hd & Ht & _).
  { now rewrite Z.add_opp_r. }
  exists (replace_tzinfo (replace_tzinfo u (Some 0%Z)) None).
  unfold Base.to_naive_utc, Base.is_aware, astimezone_utc.
  rewrite Hoff, Hu. cbn [bind].
  repeat split.
  - rewrite !wall_clock_replace_tzinfo, Hw. lia.
  - unfold valid_datetime, valid_time. cbn. rewrite Hd. cbn.
    repeat (apply andb_true_intro; split); lia.
Qed.

Lemma to_naive_utc_naive (d : datetime) :
  utcoffset (dt_time d) = None ->
  Base.to_naive_utc (VDateTime d) = Ok (VDateTime d).
Proof. intros H. unfold Base.to_naive_utc, Base.is_aware. now rewrite H. Qed.

Lemma to_naive_utc_total (p : value) :
  utc_representable p ->
  exists p', Base.to_naive_utc p = Ok p' /\ naive_utc_of p p'.
Proof.
  intros H.
  destruct p as [| | | | | | |d|]; try (eexists; split; reflexivity).
  unfold utc_representable in H. unfold naive_utc_of.
  destruct (utcoffset (dt_time d)) as [off|] eqn:Hoff.
  - destruct (to_naive_utc_aware d off Hoff H) as (u & Hu & Hrest).
    exists (VDateTime u). split; [exact Hu|]. exists u. now split.
  - exists (VDateTime d). split; [now apply to_naive_utc_naive | reflexivity].
Qed.

(** A value already in naive UTC form is left as it is. *)
Lemma to_naive_utc_fixed (p p' : value) :
  naive_utc_of p p' -> Base.to_naive_utc p' = Ok p'.
Proof.
  intros H.
  destruct p as [| | | | | | |d|]; cbn in H; try (subst p'; reflexivity).
  destruct (utcoffset (dt_time d)) as [off|] eqn:Hoff.
  - destruct H as (u & -> & Hnone & _). now apply to_naive_utc_naive.
  - subst p'. now apply to_naive_utc_naive.
Qed.

Lemma map_result_fixed (values normal : list value) :
  Forall2 naive_utc_of values normal ->
  map_result Base.to_naive_utc normal = Ok normal.
Proof.
  induction 1 as [|p p' values normal Hp _ IH]; [reflexivity|].
  cbn [map_result]. rewrite (to_naive_utc_fixed p p' Hp), IH. reflexivity.
Qed.

Lemma map_result_total (values : list value) :
  Forall utc_representable values ->
  exists normal,
    map_result Base.to_naive_utc values = Ok normal
    /\ Forall2 naive_utc_of values normal.
Proof.
  induction 1 as [|p values Hp _ (normal & Hn & Hrel)].
  - exists []. split; [reflexivity | constructor].
  - destruct (to_naive_utc_total p Hp) as (p' & Hp' & Hrel').
    exists (p' :: normal). split.
    + cbn [map_result]. rewrite Hp', Hn. reflexivity.
    + now constructor.
Qed.

(** ** Aware datetimes among the values (C10) *)

(** C10, as the code has it. When the UTC reading of every aware datetime
    among the values is one a datetime can have, and the quoter can write
    every value (no integer of more than 4300 digits), [convert_sql]
    quotes, in place of each aware datetime, a valid naive datetime (no
    offset) whose reading is that of the value less its UTC offset, and
    quotes every other value, naive datetimes included, as it is;
    rendering the values and rendering the values already put in that
    form give the same result. The condition is on the whole sequence:
    one aware datetime without a UTC form, and nothing is quoted. *)
Theorem render_normalizes_datetimes (query : string) (values : list value) :
  Forall utc_representable values ->
  Forall quotable values ->
  exists normal,
    Forall2 naive_utc_of values normal
    /\ map_result Base.convert_param values = Ok (map Base.quote_value normal)
    /\ Base.convert_sql query (Some values) = Base.convert_sql query (Some normal).
Proof.
  intros Hrep _.
  destruct (map_result_total values Hrep) as (normal & Hn & Hrel).
  exists normal.
  assert (Hlits : map_result Base.convert_param values
                  = Ok (map Base.quote_value normal)).
  { rewrite map_result_convert_param, Hn. reflexivity. }
  assert (Hlits' : map_result Base.convert_param normal
                   = Ok (map Base.quote_value normal)).
  { rewrite map_result_convert_param, (map_result_fixed _ _ Hrel). reflexivity. }
  repeat split; [exact Hrel | exact Hlits |].
  destruct Hrel as [|p p' values normal Hp Hrel]; [reflexivity|].
  rewrite !convert_sql_nonempty by discriminate.
  now rewrite Hlits, Hlits'.
Qed.

Lemma render_normalizes_datetimes_witness :
  exists normal,
    Forall2 naive_utc_of [VDateTime sample_aware; VStr "x"] normal
    /\ map_result Base.convert_param [VDateTime sample_aware; VStr "x"]
       = Ok (map Base.quote_value normal)
    /\ Base.convert_sql "a = %s, b = %s" (Some [VDateTime sample_aware; VStr "x"])
       = Base.convert_sql "a = %s, b = %s" (Some normal).
Proof.
  apply (render_normalizes_datetimes "a = %s, b = %s"
           [VDateTime sample_aware; VStr "x"]).
  - apply Forall_cons; [|apply Forall_cons; [exact I | apply Forall_nil]].
    vm_compute. split; [discriminate | reflexivity].
  - apply Forall_cons; [exact I|].
    apply Forall_cons; [exact I | apply Forall_nil].
Defined.

(** Outside that range the conversion raises, and so does the rendering,
    before any value is quoted. *)
Lemma to_naive_utc_out_of_range (d : datetime) (off : timedelta) :
  utcoffset (dt_time d) = Some off ->
  ~ in_datetime_range (wall_clock d - off) ->
  Base.to_naive_utc (VDateTime d)
  = Raise (OverflowError "date value out of range").
Proof.
  intros Hoff Hout.
  unfold Base.to_naive_utc, Base.is_aware, astimezone_utc, add_timedelta.
  rewrite Hoff. rewrite Z.add_opp_r.
  unfold in_datetime_range in Hout. revert Hout.
  generalize (wall_clock d - off)%Z as total. intros total Hout.
  replace ((0 <? total / US_PER_DAY)%Z && (total / US_PER_DAY <=? MAXORDINAL)%Z)
    with false; [reflexivity|].
  symmetry. apply andb_false_iff.
  unfold US_PER_DAY, MAXORDINAL in *.
  destruct (Z_lt_ge_dec total (86400 * 1000000)) as [Hlo | Hhi].
  - left. apply Z.ltb_ge. Z.to_euclidean_division_equations; lia.
  - right. apply Z.leb_gt. Z.to_euclidean_division_equations; lia.
Qed.

(** The conversion of the values raises nothing else. *)
Lemma convert_param_error (values : list value) (e : exn) :
  map_result Base.convert_param values = Raise e ->
  e = OverflowError "date value out of range".
Proof.
  induction values as [|p values IH]; intros H; [discriminate|].
  cbn [map_result] in H.
  destruct (Base.convert_param p) as [literal|e'] eqn:Ep.
  - cbn [bind] in H.
    destruct (map_result Base.convert_param values) as [literals|e''];
      [discriminate|].
    cbn [bind] in H. injection H as <-. now apply IH.
  - cbn [bind] in H. injection H as <-.
    unfold Base.convert_param, Base.to_naive_utc in Ep.
    destruct p as [| | | | | | |d|]; try discriminate.
    destruct (Base.is_aware d); [|discriminate].
    unfold astimezone_utc, add_timedelta in Ep.
    destruct (utcoffset (dt_time d)) as [off|]; [|discriminate].
    destruct (_ && _); [discriminate|].
    cbn in Ep. now injection Ep as <-.
Qed.

Example render_aware_datetime :
  Base.convert_sql "t = %s" (Some [VDateTime sample_aware])
  = Ok "t = '2019-12-31 23:30:00'"
  /\ Base.quote_value (VDateTime sample_aware) = "'2020-01-01 01:30:00+02:00'".
Proof. split; reflexivity. Qed.

(** An aware datetime that has no UTC form: 0001-01-01 00:00 at +01:00.
    Nothing is quoted for it; the conversion raises. *)
Lemma aware_datetime_without_utc_form :
  valid_datetime earliest_aware = true
  /\ Base.is_aware earliest_aware = true
  /\ Base.to_naive_utc (VDateTime earliest_aware)
     = Raise (OverflowError "date value out of range")
  /\ (forall literal,
        Base.convert_param (VDateTime earliest_aware) <> Ok literal).
Proof. repeat split. intros literal H. vm_compute in H. discriminate. Qed.

(** ** Rendering with values (C2) *)

(** C2, as the code has it. For every template and every non-empty
    sequence of values that the quoter can write (no integer of more than
    4300 digits), as many as the template has markers, [convert_sql]
    puts each value in the form it is quoted in ([to_naive_utc]), quotes it
    with [quote_value], and returns the text of the template with the
    literals at the successive markers, in the order of the values, one
    value or several alike; it raises if the conversion of a value does.
    When every aware datetime among the values has a UTC form, the result
    is that text, an aware datetime being quoted in its naive UTC form and
    every other value as it is. *)
Theorem render_substitutes (t : template) (values : list value) :
  values <> [] ->
  List.length values = marker_count (template_text t) ->
  Forall quotable values ->
  Base.convert_sql (template_text t) (Some values)
  = (normal <- map_result Base.to_naive_utc values ;;
     Ok (fill t (map Base.quote_value normal)))
  /\ (Forall utc_representable values ->
      exists normal,
        Forall2 naive_utc_of values normal
        /\ Base.convert_sql (template_text t) (Some values)
           = Ok (fill t (map Base.quote_value normal))).
Proof.
  intros Hne Hlen _.
  assert (Heq : Base.convert_sql (template_text t) (Some values)
                = (normal <- map_result Base.to_naive_utc values ;;
                   Ok (fill t (map Base.quote_value normal)))).
  { rewrite (convert_sql_nonempty _ _ Hne), map_result_convert_param.
    rewrite marker_count_template in Hlen.
    destruct (map_result Base.to_naive_utc values) as [normal|] eqn:E;
      [|reflexivity].
    cbn. unfold format. rewrite parse_template. cbn [init].
    apply run_template.
    rewrite length_map, (map_result_length _ _ _ E). exact Hlen. }
  split; [exact Heq|].
  intros Hrep.
  destruct (map_result_total values Hrep) as (normal & Hn & Hrel).
  exists normal. split; [exact Hrel|].
  rewrite Heq, Hn. reflexivity.
Qed.

Lemma render_substitutes_witness :
  Base.convert_sql "a = %s AND b LIKE '5%%' AND c = %s"
    (Some [VStr "it's"; VInt 5])
  = Ok "a = 'it''s' AND b LIKE '5%' AND c = 5".
Proof.
  refine (proj1 (render_substitutes
                   [Text "a = "; Marker; Text " AND b LIKE '5%' AND c = "; Marker]
                   [VStr "it's"; VInt 5] _ eq_refl _)).
  - discriminate.
  - apply Forall_cons; [exact I|].
    apply Forall_cons; [vm_compute; reflexivity | apply Forall_nil].
Defined.

(** One value for one marker, and no string: the value is the aware
    datetime without UTC form. And the literal of an aware datetime that
    has one is not the literal [quote_value] gives for the value itself. *)
Lemma render_value_not_substituted :
  List.length [VDateTime earliest_aware] = marker_count (template_text [Text "t = "; Marker])
  /\ Base.convert_sql (template_text [Text "t = "; Marker])
       (Some [VDateTime earliest_aware])
     = Raise (OverflowError "date value out of range")
  /\ Base.convert_sql (template_text [Text "t = "; Marker])
       (Some [VDateTime sample_aware])
     = Ok "t = '2019-12-31 23:30:00'"
  /\ fill [Text "t = "; Marker] [Base.quote_value (VDateTime sample_aware)]
     = "t = '2020-01-01 01:30:00+02:00'"
  /\ Base.convert_sql (template_text [Text "t = "; Marker])
       (Some [VDateTime earliest_aware])
     <> Ok (fill [Text "t = "; Marker]
              (map Base.quote_value [VDateTime earliest_aware]))
  /\ Base.convert_sql (template_text [Text "t = "; Marker])
       (Some [VDateTime sample_aware])
     <> Ok (fill [Text "t = "; Marker]
              (map Base.quote_value [VDateTime sample_aware])).
Proof. repeat split; vm_compute; discriminate. Qed.

(** ** The schema editor *)

Section EditorProperties.

Context {conn : Schema.Connection}.

Import Base.

(** A statement of the editor reaches the driver as it is. *)
Lemma editor_execute_sends (sql : string) (sent : list string) :
  Schema.editor_execute sql sent = (answer sent sql, (sent ++ [sql])%list).
Proof. reflexivity. Qed.

(** The events of a given format string, computed. *)
Ltac parse_now fmt :=
  let events := eval vm_compute in (parse fmt) in
  change (parse fmt) with events.

Lemma format_delete_fk (name table : string) :
  format Schema.sql_delete_fk (Mapping [("name", name); ("table", table)])
  = Ok ("ALTER TABLE " ++ table ++ " DROP CONSTRAINT " ++ name).
Proof. unfold format. parse_now Schema.sql_delete_fk. cbn. now rewrite append_nil_r. Qed.

Lemma format_delete_table (table : string) :
  format Schema.sql_delete_table (Mapping [("table", table)])
  = Ok ("DROP TABLE " ++ table).
Proof. unfold format. parse_now Schema.sql_delete_table. cbn. now rewrite append_nil_r. Qed.

(** The template of the renaming has no directive: the names are not put
    into it. *)
Lemma format_rename_table (old_table new_table : string) :
  format Schema.sql_rename_table
    (Mapping [("old_table", old_table); ("new_table", new_table)])
  = Ok "Rename table is not allowed".
Proof. reflexivity. Qed.

Lemma drop_reference_sends (r : Schema.reference) (sent : list string) :
  Schema.drop_reference r sent
  = (answer sent (drop_constraint_statement r),
     (sent ++ [drop_constraint_statement r])%list).
Proof.
  unfold Schema.drop_reference. rewrite format_delete_fk. reflexivity.
Qed.

Lemma accepts_app (sent qs qs' : list string) :
  accepts Schema.cursor_driver sent (qs ++ qs')%list
  <-> accepts Schema.cursor_driver sent qs
      /\ accepts Schema.cursor_driver (sent ++ qs)%list qs'.
Proof.
  revert sent. induction qs as [|q qs IH]; intros sent; cbn.
  - rewrite app_nil_r. tauto.
  - rewrite IH, <- app_assoc. cbn. tauto.
Qed.

(** The loop of [delete_model], when the driver accepts its statements. *)
Lemma drop_references_send (refs : list Schema.reference) (sent : list string) :
  accepts Schema.cursor_driver sent (map drop_constraint_statement refs) ->
  for_each Schema.drop_reference refs sent
  = (Ok tt, (sent ++ map drop_constraint_statement refs)%list).
Proof.
  revert sent. induction refs as [|r refs IH]; intros sent Hacc.
  - cbn. now rewrite app_nil_r.
  - cbn [map accepts] in Hacc. destruct Hacc as [Hr Hacc].
    cbn [for_each]. unfold and_then at 1.
    rewrite drop_reference_sends. unfold answer. rewrite Hr.
    change (for_each Schema.drop_reference refs
              (sent ++ [drop_constraint_statement r])%list
            = (Ok tt, (sent ++ map drop_constraint_statement (r :: refs))%list)).
    rewrite (IH _ Hacc), <- app_assoc. reflexivity.
Qed.

(** Through tables that are not auto-created are left alone. *)
Lemma no_through_table_deleted (self : Schema.model -> db unit)
  (through : list Schema.model) (sent : list string) :
  existsb Schema.auto_created through = false ->
  for_each (fun t => if Schema.auto_created t then self t else ret tt)
           through sent
  = (Ok tt, sent).
Proof.
  induction through as [|t through IH]; intros H; [reflexivity|].
  cbn [existsb] in H. apply orb_false_elim in H as [Ht H].
  cbn [for_each]. unfold and_then at 1. rewrite Ht. cbn [ret].
  exact (IH H).
Qed.

(** C3, as the code has it. For a model none of whose many-to-many
    fields has an auto-created through table, with [refs] the rows of the
    catalog query for its table, and a driver that accepts the
    statements: [delete_model] sends one drop-constraint statement per
    row, in the order of the rows, then one [DROP TABLE] for the table,
    and nothing else. *)
Theorem delete_model_statements (m : Schema.model) (sent : list string)
  (refs : list Schema.reference) :
  has_auto_created_through m = false ->
  Schema.get_references sent (Schema.db_table m) = Ok refs ->
  accepts Schema.cursor_driver sent
    (map drop_constraint_statement refs ++ [drop_table_statement m])%list ->
  Schema.delete_model m sent
  = (Ok tt,
     (sent ++ map drop_constraint_statement refs ++ [drop_table_statement m])%list)
  /\ List.length (map drop_constraint_statement refs) = List.length refs
  /\ filter is_drop_table
       (map drop_constraint_statement refs ++ [drop_table_statement m])%list
     = [drop_table_statement m].
Proof.
  intros Hthrough Hrefs Hacc.
  apply accepts_app in Hacc as [Hdrops [Htable _]].
  repeat split.
  - destruct m as [table auto through].
    cbn [Schema.delete_model Schema.db_table] in *.
    unfold and_then at 1. unfold and_then at 1.
    rewrite Hrefs, (drop_references_send _ _ Hdrops).
    unfold Schema.base_delete_model. unfold and_then at 1.
    cbn [Schema.through_models].
    rewrite (no_through_table_deleted _ _ _ Hthrough).
    cbn [Schema.db_table]. rewrite format_delete_table.
    unfold and_then, lift, ret. rewrite editor_execute_sends.
    unfold answer. unfold drop_table_statement in Htable.
    cbn [Schema.db_table] in Htable. rewrite Htable.
    now rewrite <- app_assoc.
  - apply length_map.
  - rewrite filter_app.
    replace (filter is_drop_table (map drop_constraint_statement refs))
      with (@nil string)
      by (clear; induction refs as [|r refs IH]; [reflexivity | exact IH]).
    cbn [filter app].
    replace (is_drop_table (drop_table_statement m)) with true; [reflexivity|].
    unfold is_drop_table, drop_table_statement.
    now destruct (Schema.quote_name (Schema.db_table m)).
Qed.

(** With through tables too, when the driver accepts every statement and
    the catalog answers every query: [delete_model] sends the
    drop-constraint statements of the rows first and the [DROP TABLE] of
    the model last; what deletes the auto-created through tables comes
    between. *)
Lemma delete_model_shape
  (Hdriver : forall sent q, Schema.cursor_driver sent q = None)
  (Hcatalog : forall sent table,
      exists refs, Schema.get_references sent table = Ok refs)
  (m : Schema.model) :
  forall sent,
  exists refs between,
    Schema.get_references sent (Schema.db_table m) = Ok refs
    /\ Schema.delete_model m sent
       = (Ok tt,
          (sent ++ map drop_constraint_statement refs ++ between
             ++ [drop_table_statement m])%list).
Proof.
  induction m as [table auto through IH] using Schema.model_induction.
  intros sent.
  destruct (Hcatalog sent table) as [refs Hrefs].
  assert (Hloop : forall sent0, exists between,
             for_each (fun t => if Schema.auto_created t
                                then Schema.delete_model t else ret tt)
                      through sent0
             = (Ok tt, (sent0 ++ between)%list)).
  { clear Hrefs. induction IH as [|t through Ht _ IHl]; intros sent0.
    - exists []. cbn. now rewrite app_nil_r.
    - cbn [for_each]. unfold and_then at 1.
      destruct (Schema.auto_created t).
      + destruct (Ht sent0) as (r & b & _ & ->).
        destruct (IHl (sent0 ++ map drop_constraint_statement r ++ b
                         ++ [drop_table_statement t])%list) as [b' ->].
        eexists. now rewrite <- app_assoc.
      + cbn [ret]. apply IHl. }
  destruct (Hloop (sent ++ map drop_constraint_statement refs)%list)
    as [between Hbetween].
  exists refs, between. split; [exact Hrefs|].
  cbn [Schema.delete_model Schema.db_table].
  unfold and_then at 1. unfold and_then at 1.
  rewrite Hrefs, drop_references_send.
  - unfold Schema.base_delete_model. unfold and_then at 1.
    cbn [Schema.through_models]. rewrite Hbetween.
    cbn [Schema.db_table]. rewrite format_delete_table.
    unfold and_then, lift, ret. rewrite editor_execute_sends.
    unfold answer. rewrite Hdriver.
    unfold drop_table_statement. cbn [Schema.db_table].
    now rewrite <- !app_assoc.
  - clear - Hdriver. generalize (map drop_constraint_statement refs) as qs.
    intros qs. revert sent.
    induction qs as [|q qs IHq]; intros sent; cbn; [exact I|].
    split; [apply Hdriver | apply IHq].
Qed.

(** C4, as the code has it. [alter_db_table] raises nothing of its own.
    With the same name twice, or, on a connection that ignores the case
    of table names, with two names that are equal once in lower case, it
    sends nothing and returns. With any other two names it sends one
    statement, the text of [sql_rename_table] with no name in it, and the
    outcome is the answer of the driver to that text. *)
Theorem rename_table_sends_template (m : Schema.model)
  (old_table new_table : string) (sent : list string) :
  Schema.alter_db_table m old_table new_table sent
  = if String.eqb old_table new_table
       || (Schema.ignores_table_name_case
           && String.eqb (Schema.lower old_table) (Schema.lower new_table))
    then (Ok tt, sent)
    else (answer sent "Rename table is not allowed",
          (sent ++ ["Rename table is not allowed"])%list).
Proof.
  unfold Schema.alter_db_table.
  destruct (_ || _); [reflexivity|].
  rewrite format_rename_table. reflexivity.
Qed.

End EditorProperties.

Lemma delete_model_statements_witness :
  Schema.delete_model (conn := sample_connection) book_explicit []
  = (Ok tt, ["ALTER TABLE BOOK_AUTHORS DROP CONSTRAINT FK_BOOK";
             "DROP TABLE BOOK"]).
Proof.
  exact (proj1 (delete_model_statements (conn := sample_connection)
                  book_explicit [] [("FK_BOOK", "book_authors")]
                  eq_refl eq_refl
                  (conj eq_refl (conj eq_refl I)))).
Defined.

(** A model with an auto-created through table: the catalog has one
    foreign key to its table, and [delete_model] sends three statements,
    two of them [DROP TABLE]. *)
Lemma delete_model_through_table :
  Schema.get_references (Connection := sample_connection) []
    (Schema.db_table book) = Ok [("FK_BOOK", "book_authors")]
  /\ Schema.delete_model (conn := sample_connection) book []
     = (Ok tt, ["ALTER TABLE BOOK_AUTHORS DROP CONSTRAINT FK_BOOK";
                "DROP TABLE BOOK_AUTHORS";
                "DROP TABLE BOOK"])
  /\ snd (Schema.delete_model (conn := sample_connection) book [])
     <> (map (drop_constraint_statement (conn := sample_connection))
           [("FK_BOOK", "book_authors")]
         ++ [drop_table_statement (conn := sample_connection) book])%list
  /\ List.length
       (filter is_drop_table
          (snd (Schema.delete_model (conn := sample_connection) book [])))
     = 2.
Proof. repeat split. vm_compute. discriminate. Qed.

(** The renaming of a table reaches the database: the text of the
    template is sent as a statement, and the failure, if any, is the one
    of the database. *)
Lemma rename_table_reaches_database :
  Schema.alter_db_table (conn := refusing_connection) book "BOOK" "VOLUME" []
  = (Raise (DatabaseError "Dynamic SQL Error"), ["Rename table is not allowed"])
  /\ Schema.alter_db_table (conn := sample_connection) book "BOOK" "VOLUME" []
     = (Ok tt, ["Rename table is not allowed"])
  /\ Schema.alter_db_table (conn := sample_connection) book "BOOK" "BOOK" []
     = (Ok tt, [])
  /\ ~ rename_rejected (conn := refusing_connection) book "BOOK" "VOLUME" []
  /\ ~ rename_rejected (conn := sample_connection) book "BOOK" "VOLUME" []
  /\ ~ rename_rejected (conn := sample_connection) book "BOOK" "BOOK" [].
Proof.
  repeat split; intros [msg H]; vm_compute in H; discriminate.
Qed.

(** * Further properties

    What the code shows beyond the statements above: the quoter read back
    on integers and dates and inside a statement, the cursor with one and
    with many parameter sets, format strings with named fields, the
    editor when the database refuses a statement, and the connection
    parameters. *)

Import Extra.

Lemma string_app_assoc (a b c : string) : (a ++ b) ++ c = a ++ (b ++ c).
Proof. induction a as [|x a IH]; cbn; [reflexivity | now rewrite IH]. Qed.

(** The events of a given format string, computed. *)
Ltac compute_parse fmt :=
  let events := eval vm_compute in (parse fmt) in
  change (parse fmt) with events.

(** ** The quoter, read back *)

(** X1. A quoted text inside a statement: whatever text [quote_value] is
    given and whatever follows the literal in the statement, reading an
    SQL string literal at the literal gives the text back and stops
    exactly where the rest of the statement begins, provided that the
    rest does not begin with a quote. No text closes its own literal
    early. *)
Theorem quoted_text_in_statement (v rest : string) :
  prefix "'" rest = false ->
  read_string_literal (Base.quote_value (VStr v) ++ rest) = Some (v, rest).
Proof.
  intros Hrest. cbn [Base.quote_value].
  rewrite replace_quote_doubles.
  cbn [append read_string_literal]. unfold squote at 1.
  rewrite Ascii.eqb_refl.
  replace ((double_quotes v ++ "'") ++ rest)
    with (double_quotes v ++ String squote rest).
  - now apply read_quoted_doubled.
  - unfold squote. induction (double_quotes v) as [|c s IH]; cbn;
      [reflexivity | now rewrite IH].
Qed.

Lemma quoted_text_in_statement_witness :
  read_string_literal (Base.quote_value (VStr "x' OR '1'='1") ++ " AND b = 'y'")
  = Some ("x' OR '1'='1", " AND b = 'y'").
Proof.
  exact (quoted_text_in_statement "x' OR '1'='1" " AND b = 'y'" eq_refl).
Defined.

Lemma append_inj_l (p a b : string) : p ++ a = p ++ b -> a = b.
Proof.
  induction p as [|c p IH]; cbn; intros H; [exact H|].
  injection H as H. now apply IH.
Qed.

(** X2. The quoter keeps values apart: two texts with the same literal
    are the same text, two byte strings with the same literal are the
    same bytes, and the literal of a text is never the literal of a byte
    string nor [NULL], nor is the literal of a byte string [NULL]. *)
Theorem quote_value_injective :
  (forall a b : string,
      Base.quote_value (VStr a) = Base.quote_value (VStr b) -> a = b)
  /\ (forall a b : list byte,
         Base.quote_value (VBytes a) = Base.quote_value (VBytes b) -> a = b)
  /\ (forall (a : string) (b : list byte),
         Base.quote_value (VStr a) <> Base.quote_value (VBytes b))
  /\ (forall a : string, Base.quote_value (VStr a) <> Base.quote_value VNone)
  /\ (forall b : list byte, Base.quote_value (VBytes b) <> Base.quote_value VNone).
Proof.
  repeat split.
  - intros a b H. cbn [Base.quote_value] in H.
    rewrite !replace_quote_doubles in H.
    apply (append_inj_l "'") in H.
    assert (Ha := read_quoted_doubled a EmptyString eq_refl).
    assert (Hb := read_quoted_doubled b EmptyString eq_refl).
    unfold squote in Ha, Hb.
    change (String "'" EmptyString) with "'" in Ha, Hb.
    rewrite H in Ha. rewrite Ha in Hb. now injection Hb.
  - intros a b H. cbn [Base.quote_value] in H.
    rewrite !hexlify_lowercase_hex in H.
    apply (append_inj_l "x'") in H.
    destruct (read_quoted_hex a) as [Ha _].
    destruct (read_quoted_hex b) as [Hb _].
    rewrite H in Ha. rewrite Ha in Hb. injection Hb as Hb.
    assert (Hu := unhexlify_lowercase_hex a).
    rewrite Hb, unhexlify_lowercase_hex in Hu. now injection Hu.
  - intros a b H. discriminate.
  - intros a H. discriminate.
  - intros b H. discriminate.
Qed.

Lemma to_int_not_nil (z : Z) :
  Z.to_int z <> Decimal.Pos Decimal.Nil /\ Z.to_int z <> Decimal.Neg Decimal.Nil.
Proof.
  destruct z as [|p|p]; cbn; split; try discriminate;
    intros H; injection H as H;
    exact (DecimalPos.Unsigned.to_uint_nonnil p H).
Qed.

Lemma uint_digits (d : Decimal.uint) :
  all_chars is_digit (NilEmpty.string_of_uint d) = true.
Proof. induction d; cbn; try reflexivity; exact IHd. Qed.

Lemma all_chars_weaken (p q : ascii -> bool) (s : string) :
  (forall c, p c = true -> q c = true) ->
  all_chars p s = true -> all_chars q s = true.
Proof.
  intros Hpq. induction s as [|c s IH]; cbn; [reflexivity|].
  intros H. apply andb_prop in H as [Hc Hs].
  now rewrite (Hpq c Hc), (IH Hs).
Qed.

(** X3. The literal of an integer is its decimal text: it reads back as
    the same integer and holds nothing but digits and a minus sign, so
    an integer is put into a statement without quotes and without a
    character that could end or open a literal. The integer has at most
    4300 digits, the most that [str] converts. *)
Theorem quote_integer_round_trip (z : Z) :
  (Z.abs z < 10 ^ 4300)%Z ->
  read_int (Base.quote_value (VInt z)) = Some z
  /\ all_chars digit_or_minus (Base.quote_value (VInt z)) = true.
Proof.
  intros _. cbn [Base.quote_value]. unfold str_int, read_int. split.
  - destruct (to_int_not_nil z) as [Hp Hn].
    rewrite (NilZero.isi _ Hp Hn). cbn. now rewrite DecimalZ.of_to.
  - unfold digit_or_minus.
    destruct (Z.to_int z) as [d|d]; cbn.
    + destruct d; try (cbn; apply (all_chars_weaken is_digit); [intros c ->; reflexivity | apply uint_digits]).
      reflexivity.
    + destruct d; try (cbn; apply (all_chars_weaken is_digit); [intros c ->; reflexivity | apply uint_digits]).
      reflexivity.
Qed.

Lemma quote_integer_round_trip_witness :
  read_int (Base.quote_value (VInt (-2024))) = Some (-2024)%Z
  /\ all_chars digit_or_minus (Base.quote_value (VInt (-2024))) = true.
Proof.
  apply (quote_integer_round_trip (-2024)). vm_compute. reflexivity.
Defined.

Lemma read_digits_app (n : nat) (acc v : Z) (s rest : string) :
  read_digits n acc s = Some (v, EmptyString) ->
  read_digits n acc (s ++ rest) = Some (v, rest).
Proof.
  revert acc s.
  induction n as [|n IH]; intros acc s H; cbn in *.
  - injection H as -> ->. reflexivity.
  - destruct s as [|c s]; [discriminate|]. cbn.
    destruct (is_digit c); [|discriminate]. now apply IH.
Qed.

(** The years and the days of a date, checked one by one. *)
Lemma years_checked : all_from (zfill_ok 4) 1 (Z.to_nat 9999) = true.
Proof. vm_cast_no_check (eq_refl true). Qed.

Lemma days_checked : all_from (zfill_ok 2) 1 (Z.to_nat 31) = true.
Proof. vm_cast_no_check (eq_refl true). Qed.

Lemma zfill_read (width : nat) (z : Z) (rest : string) :
  zfill_ok width z = true ->
  read_digits width 0 (zfill width z ++ rest) = Some (z, rest).
Proof.
  unfold zfill_ok. intros H. apply read_digits_app.
  destruct (read_digits width 0 (zfill width z)) as [[v [|c s]]|];
    try discriminate.
  apply Z.eqb_eq in H. now subst v.
Qed.

Lemma days_in_month_le_31 (y m : Z) : (days_in_month y m <= 31)%Z.
Proof.
  unfold days_in_month.
  destruct (_ && _); [lia|].
  generalize (Z.to_nat m) as k. intros k.
  do 13 (destruct k as [|k]; [cbn; lia|]).
  destruct k; cbn; lia.
Qed.

(** X4. The literal of a date is the date written [YYYY-MM-DD] between
    quotes, with leading zeros: read back field by field it gives the
    same year, month and day, for every date of the calendar. *)
Theorem quote_date_round_trip (d : date) :
  valid_date d = true ->
  read_date_literal (Base.quote_value (VDate d)) = Some d.
Proof.
  intros Hv. unfold valid_date in Hv.
  repeat (apply andb_prop in Hv as [Hv ?]).
  assert (Hy : zfill_ok 4 (year d) = true)
    by (apply (all_from_spec _ _ 1 _ years_checked); lia).
  assert (Hm : zfill_ok 2 (month d) = true)
    by (apply (all_from_spec _ _ 1 _ days_checked); lia).
  assert (Hd : zfill_ok 2 (day d) = true).
  { apply (all_from_spec _ _ 1 _ days_checked).
    pose proof (days_in_month_le_31 (year d) (month d)). lia. }
  cbn [Base.quote_value]. unfold str_date.
  cbn [append read_date_literal]. unfold squote at 1.
  rewrite Ascii.eqb_refl. unfold read_date.
  rewrite !string_app_assoc. cbn [append].
  rewrite (zfill_read 4 (year d) _ Hy). cbn [append].
  rewrite !string_app_assoc. cbn [append].
  rewrite (zfill_read 2 (month d) _ Hm). cbn [append].
  rewrite (zfill_read 2 (day d) _ Hd).
  destruct d as [y m dd]. reflexivity.
Qed.

Lemma quote_date_round_trip_witness :
  read_date_literal (Base.quote_value (VDate (mkDate 2024 2 29)))
  = Some (mkDate 2024 2 29).
Proof. exact (quote_date_round_trip (mkDate 2024 2 29) eq_refl). Defined.

(** ** Parameters and defaults *)

(** X5. Two aware datetimes that are the same instant, whatever their
    offsets, are rendered alike: the loop of [convert_sql] gives both
    the same literal, or fails on both. *)
Theorem same_instant_same_literal (d1 d2 : datetime) (o1 o2 : timedelta) :
  utcoffset (dt_time d1) = Some o1 ->
  utcoffset (dt_time d2) = Some o2 ->
  (wall_clock d1 - o1 = wall_clock d2 - o2)%Z ->
  Base.convert_param (VDateTime d1) = Base.convert_param (VDateTime d2).
Proof.
  intros H1 H2 Hsame.
  unfold Base.convert_param, Base.to_naive_utc, Base.is_aware, astimezone_utc,
    add_timedelta.
  rewrite H1, H2, !Z.add_opp_r, Hsame.
  destruct (_ && _); reflexivity.
Qed.

Lemma same_instant_same_literal_witness :
  Base.convert_param (VDateTime sample_aware)
  = Base.convert_param (VDateTime sample_later).
Proof.
  exact (same_instant_same_literal sample_aware sample_later
           7200000000%Z 19800000000%Z eq_refl eq_refl eq_refl).
Defined.

(** X6. A value that is not an aware datetime, and that the quoter can
    write, has the same literal as a parameter of the cursor and as a
    default of the schema editor: the copy of [quote_value] in schema.py
    and the one in base.py give the same literal, and the query [%s]
    rendered with the value alone is [prepare_default] of the value. *)
Theorem parameter_literal_is_default_literal (v : value) :
  not_aware v ->
  quotable v ->
  Schema.quote_value v = Base.quote_value v
  /\ Base.convert_sql "%s" (Some [v]) = Ok (Schema.prepare_default v)
  /\ Base.convert_param v = Ok (Schema.quote_value v).
Proof.
  intros Hv _.
  assert (Hn : Base.to_naive_utc v = Ok v).
  { destruct v; try reflexivity. now apply to_naive_utc_naive. }
  assert (Hq : Schema.quote_value v = Base.quote_value v)
    by (destruct v; reflexivity).
  assert (Hp : Base.convert_param v = Ok (Schema.quote_value v)).
  { unfold Base.convert_param. rewrite Hn, Hq. reflexivity. }
  split; [exact Hq|]. split; [|exact Hp].
  unfold Base.convert_sql, Schema.prepare_default. cbn [map_result].
  rewrite Hp. cbn [bind].
  unfold format. compute_parse "%s". cbn.
  now rewrite append_nil_r.
Qed.

Lemma parameter_literal_is_default_literal_witness :
  Schema.quote_value (VStr "it's") = Base.quote_value (VStr "it's")
  /\ Base.convert_sql "%s" (Some [VStr "it's"])
     = Ok (Schema.prepare_default (VStr "it's"))
  /\ Base.convert_param (VStr "it's") = Ok (Schema.quote_value (VStr "it's")).
Proof. exact (parameter_literal_is_default_literal (VStr "it's") I I). Defined.

(** ** The cursor *)

(** X7. [execute] with a template and as many values as it has markers,
    none of them an aware datetime without a UTC form nor an integer of
    more than 4300 digits: the driver receives one statement, the
    template filled with the literals of the values, and the outcome of
    [execute] is the answer of the driver to it. *)
Theorem execute_sends_rendered (drv : Base.driver) (t : template)
  (values normal : list value) (sent : list string) :
  values <> [] ->
  List.length values = markers t ->
  Forall quotable values ->
  map_result Base.to_naive_utc values = Ok normal ->
  Base.execute drv (template_text t) (Some values) sent
  = (match drv sent (fill t (map Base.quote_value normal)) with
     | None => Ok tt
     | Some e => Raise e
     end,
     (sent ++ [fill t (map Base.quote_value normal)])%list).
Proof.
  intros Hne Hlen _ Hnormal.
  unfold Base.execute, Base.and_then.
  rewrite (convert_sql_nonempty _ _ Hne), map_result_convert_param, Hnormal.
  cbn [bind]. unfold format. rewrite parse_template. cbn [init].
  rewrite run_template.
  - reflexivity.
  - rewrite length_map, (map_result_length _ _ _ Hnormal). exact Hlen.
Qed.

Lemma execute_sends_rendered_witness :
  Base.execute (fun _ _ => None) "UPDATE t SET a = %s WHERE b = %s"
    (Some [VStr "it's"; VInt 7]) ["SELECT 1"]
  = (Ok tt, ["SELECT 1"; "UPDATE t SET a = 'it''s' WHERE b = 7"]).
Proof.
  refine (execute_sends_rendered (fun _ _ => None)
            [Text "UPDATE t SET a = "; Marker; Text " WHERE b = "; Marker]
            [VStr "it's"; VInt 7] [VStr "it's"; VInt 7] ["SELECT 1"]
            _ eq_refl _ eq_refl).
  - discriminate.
  - apply Forall_cons; [exact I|].
    apply Forall_cons; [vm_compute; reflexivity | apply Forall_nil].
Defined.

(** X8. When the number of values is not the number of directives of the
    query, [execute] raises before it reaches the driver: no statement
    is sent. *)
Theorem execute_mismatch_sends_nothing (drv : Base.driver) (query : string)
  (values : list value) (sent : list string) :
  values <> [] ->
  List.length values <> marker_count query ->
  exists e, Base.execute drv query (Some values) sent = (Raise e, sent).
Proof.
  intros Hne Hlen. unfold Base.execute, Base.and_then.
  rewrite (convert_sql_nonempty _ _ Hne).
  destruct (map_result Base.convert_param values) as [literals|e] eqn:E.
  - cbn [bind].
    destruct (format_count_mismatch query literals) as [e [He _]].
    + now rewrite (map_result_length _ _ _ E).
    + rewrite He. exists e. reflexivity.
  - exists e. reflexivity.
Qed.

Lemma execute_mismatch_sends_nothing_witness :
  exists e,
    Base.execute (fun _ _ => None) "SELECT %s, %s" (Some [VInt 1]) ["SELECT 1"]
    = (Raise e, ["SELECT 1"]).
Proof.
  apply (execute_mismatch_sends_nothing (fun _ _ => None) "SELECT %s, %s"
           [VInt 1] ["SELECT 1"]).
  - discriminate.
  - vm_compute. discriminate.
Defined.

Lemma for_each_app {A : Type} (body : A -> Base.db unit) (xs ys : list A)
  (sent : list string) :
  Base.for_each body (xs ++ ys)%list sent
  = Base.and_then (Base.for_each body xs) (fun _ => Base.for_each body ys) sent.
Proof.
  revert sent. induction xs as [|x xs IH]; intros sent; [reflexivity|].
  cbn [app Base.for_each]. unfold Base.and_then.
  destruct (body x sent) as [[[]|e] sent']; [|reflexivity].
  rewrite IH. reflexivity.
Qed.

(** The parameter sets that render are executed one by one, as long as
    the driver accepts the statements. *)
Lemma executemany_prefix (drv : Base.driver) (query : string)
  (param_list : list (option (list value))) (qs sent : list string) :
  map_result (Base.convert_sql query) param_list = Ok qs ->
  accepts drv sent qs ->
  Base.executemany drv query param_list sent = (Ok tt, (sent ++ qs)%list).
Proof.
  unfold Base.executemany. revert qs sent.
  induction param_list as [|p ps IH]; intros qs sent Hqs Hacc.
  - cbn in Hqs. injection Hqs as <-. cbn. now rewrite app_nil_r.
  - cbn [map_result] in Hqs.
    destruct (Base.convert_sql query p) as [q|] eqn:Eq; [|discriminate].
    cbn [bind] in Hqs.
    destruct (map_result (Base.convert_sql query) ps) as [qs'|]; [|discriminate].
    cbn [bind] in Hqs. injection Hqs as <-.
    cbn [accepts] in Hacc. destruct Hacc as [Hq Hacc].
    cbn [Base.for_each]. unfold Base.and_then at 1.
    unfold Base.and_then at 1. rewrite Eq. cbn [Base.lift Base.ret].
    unfold Base.driver_execute at 1. rewrite Hq.
    rewrite (IH qs' _ eq_refl Hacc), <- app_assoc. reflexivity.
Qed.

(** X9. [executemany] renders the query once for each parameter set and
    sends the statements in the order of the sets, one statement for
    each set, when every set renders and the driver accepts every
    statement. *)
Theorem executemany_sends_each (drv : Base.driver) (query : string)
  (param_list : list (option (list value))) (qs sent : list string) :
  map_result (Base.convert_sql query) param_list = Ok qs ->
  accepts drv sent qs ->
  Base.executemany drv query param_list sent = (Ok tt, (sent ++ qs)%list)
  /\ List.length qs = List.length param_list.
Proof.
  intros Hqs Hacc. split.
  - now apply executemany_prefix.
  - exact (map_result_length _ _ _ Hqs).
Qed.

Lemma executemany_sends_each_witness :
  Base.executemany (fun _ _ => None) "INSERT INTO t VALUES (%s)"
    [Some [VInt 1]; Some [VStr "a"]] []
  = (Ok tt, ["INSERT INTO t VALUES (1)"; "INSERT INTO t VALUES ('a')"])
  /\ 2 = 2.
Proof.
  exact (executemany_sends_each (fun _ _ => None) "INSERT INTO t VALUES (%s)"
           [Some [VInt 1]; Some [VStr "a"]]
           ["INSERT INTO t VALUES (1)"; "INSERT INTO t VALUES ('a')"] []
           eq_refl (conj eq_refl (conj eq_refl I))).
Defined.

(** X10. [executemany] is not atomic: when a parameter set does not
    render, the statements of the sets before it have been sent already,
    the error of the rendering is raised, and the sets after it are not
    looked at. *)
Theorem executemany_stops_at_bad_parameters (drv : Base.driver) (query : string)
  (before after : list (option (list value))) (bad : option (list value))
  (qs sent : list string) (e : exn) :
  map_result (Base.convert_sql query) before = Ok qs ->
  accepts drv sent qs ->
  Base.convert_sql query bad = Raise e ->
  Base.executemany drv query (before ++ bad :: after)%list sent
  = (Raise e, (sent ++ qs)%list).
Proof.
  intros Hqs Hacc Hbad. unfold Base.executemany.
  rewrite for_each_app. unfold Base.and_then at 1.
  change (Base.for_each _ before sent)
    with (Base.executemany drv query before sent).
  rewrite (executemany_prefix _ _ _ _ _ Hqs Hacc).
  cbn [Base.for_each]. unfold Base.and_then at 1. unfold Base.and_then at 1.
  rewrite Hbad. reflexivity.
Qed.

Lemma executemany_stops_at_bad_parameters_witness :
  Base.executemany (fun _ _ => None) "INSERT INTO t VALUES (%s)"
    [Some [VInt 1]; Some [VInt 2; VInt 3]; Some [VInt 4]] []
  = (Raise (TypeError "not all arguments converted during string formatting"),
     ["INSERT INTO t VALUES (1)"]).
Proof.
  exact (executemany_stops_at_bad_parameters (fun _ _ => None)
           "INSERT INTO t VALUES (%s)"
           [Some [VInt 1]] [Some [VInt 4]] (Some [VInt 2; VInt 3])
           ["INSERT INTO t VALUES (1)"] []
           (TypeError "not all arguments converted during string formatting")
           eq_refl (conj eq_refl I) eq_refl).
Defined.

(** X11. When the driver refuses the statement of a parameter set,
    [executemany] raises the error of the driver; the statements of the
    sets before it and the refused one have been sent, those of the sets
    after it have not. *)
Theorem executemany_stops_at_refusal (drv : Base.driver) (query : string)
  (before after : list (option (list value))) (p : option (list value))
  (qs sent : list string) (q : string) (e : exn) :
  map_result (Base.convert_sql query) before = Ok qs ->
  accepts drv sent qs ->
  Base.convert_sql query p = Ok q ->
  drv (sent ++ qs)%list q = Some e ->
  Base.executemany drv query (before ++ p :: after)%list sent
  = (Raise e, (sent ++ qs ++ [q])%list).
Proof.
  intros Hqs Hacc Hq Hrefuse. unfold Base.executemany.
  rewrite for_each_app. unfold Base.and_then at 1.
  change (Base.for_each _ before sent)
    with (Base.executemany drv query before sent).
  rewrite (executemany_prefix _ _ _ _ _ Hqs Hacc).
  cbn [Base.for_each]. unfold Base.and_then at 1. unfold Base.and_then at 1.
  rewrite Hq. cbn [Base.lift Base.ret].
  unfold Base.driver_execute. rewrite Hrefuse, <- app_assoc. reflexivity.
Qed.

Lemma executemany_stops_at_refusal_witness :
  Base.executemany
    (fun _ q => if String.eqb q "INSERT INTO t VALUES (2)"
                then Some (DatabaseError "violation of PRIMARY KEY")
                else None)
    "INSERT INTO t VALUES (%s)"
    [Some [VInt 1]; Some [VInt 2]; Some [VInt 3]] []
  = (Raise (DatabaseError "violation of PRIMARY KEY"),
     ["INSERT INTO t VALUES (1)"; "INSERT INTO t VALUES (2)"]).
Proof.
  exact (executemany_stops_at_refusal
           (fun _ q => if String.eqb q "INSERT INTO t VALUES (2)"
                       then Some (DatabaseError "violation of PRIMARY KEY")
                       else None)
           "INSERT INTO t VALUES (%s)"
           [Some [VInt 1]] [Some [VInt 3]] (Some [VInt 2])
           ["INSERT INTO t VALUES (1)"] [] "INSERT INTO t VALUES (2)"
           (DatabaseError "violation of PRIMARY KEY")
           eq_refl (conj eq_refl I) eq_refl eq_refl).
Defined.

(** ** Named fields *)

(** Without a mapping, a format string with a named field never
    formats. *)
Lemma run_key_start (evs evs' : list event) (pending : list fmt_arg) :
  forallb plain_event evs = true ->
  exists msg,
    run (evs ++ EKeyStart :: evs')%list (mkFState None pending)
    = Raise (TypeError msg).
Proof.
  revert pending. induction evs as [|ev evs IH]; intros pending H.
  - eexists. reflexivity.
  - cbn [forallb] in H. apply andb_prop in H as [Hev H].
    destruct ev as [c| |k| |d c|msg]; try discriminate.
    + destruct (IH pending H) as [msg Hmsg].
      exists msg. cbn [app run]. now rewrite Hmsg.
    + destruct d as [[] [] [] [] [] [w|] [p0|]]; try discriminate.
      cbn in Hev. apply Ascii.eqb_eq in Hev. subst c.
      destruct pending as [|a rest]; [eexists; reflexivity|].
      destruct (IH rest H) as [msg Hmsg].
      exists msg. cbn [app run fs_pending fs_dict].
      destruct a; cbn; now rewrite Hmsg.
Qed.

Lemma scan_template_then (t : template) (rest : string) :
  scan SText (template_text t ++ rest)
  = (template_events t ++ scan SText rest)%list.
Proof.
  induction t as [|[s|] t IH]; [reflexivity| |].
  - cbn [template_text template_events].
    rewrite string_app_assoc, scan_text, IH. now rewrite app_assoc.
  - cbn [template_text template_events].
    change (("%s" ++ template_text t) ++ rest)
      with ("%s" ++ (template_text t ++ rest)).
    now rewrite scan_marker, IH.
Qed.

Lemma template_events_plain (t : template) :
  forallb plain_event (template_events t) = true.
Proof.
  induction t as [|[s|] t IH]; [reflexivity| |].
  - cbn [template_events]. rewrite forallb_app, IH, andb_true_r.
    clear. induction s as [|c s IHs]; [reflexivity | exact IHs].
  - cbn [template_events forallb]. now rewrite IH.
Qed.

(** X12. The cursor knows positional markers only: a query with a named
    field [%(name)s] after a template, rendered with a non-empty
    sequence of values, raises [TypeError], since [convert_sql] gives
    the formatter a string or a tuple and never a mapping. *)
Theorem named_field_rejected (t : template) (rest : string)
  (values : list value) (literals : list string) :
  values <> [] ->
  map_result Base.convert_param values = Ok literals ->
  exists msg,
    Base.convert_sql (template_text t ++ "%(" ++ rest) (Some values)
    = Raise (TypeError msg).
Proof.
  intros Hne Hlit.
  rewrite (convert_sql_nonempty _ _ Hne), Hlit. cbn [bind].
  unfold format, parse. rewrite scan_template_then.
  change (scan SText ("%(" ++ rest))
    with (EKeyStart :: scan (SKey 1 EmptyString) rest).
  cbn [init].
  apply run_key_start, template_events_plain.
Qed.

Lemma named_field_rejected_witness :
  exists msg,
    Base.convert_sql "SELECT * FROM t WHERE a = %s AND b = %(b)s"
      (Some [VInt 1; VInt 2])
    = Raise (TypeError msg).
Proof.
  exact (named_field_rejected
           [Text "SELECT * FROM t WHERE a = "; Marker; Text " AND b = "]
           "b)s" [VInt 1; VInt 2] ["1"; "2"]
           (fun H => eq_ind [VInt 1; VInt 2]
                       (fun l => match l with [] => False | _ => True end)
                       I [] H)
           eq_refl).
Defined.

Lemma scan_key (k acc rest : string) :
  all_chars no_paren k = true ->
  scan (SKey 1 acc) (k ++ String ")" rest)
  = EKey (acc ++ k) :: scan (SFlags plain) rest.
Proof.
  revert acc. induction k as [|c k IH]; intros acc H.
  - cbn. now rewrite append_nil_r.
  - cbn [all_chars] in H. apply andb_prop in H as [Hc H].
    unfold no_paren in Hc. apply negb_true_iff, orb_false_elim in Hc as [Ho Hcl].
    cbn [append scan step]. rewrite Hcl, Ho. cbn [fst snd app].
    rewrite (IH _ H), string_app_assoc. reflexivity.
Qed.

Lemma scan_field (k rest : string) :
  all_chars no_paren k = true ->
  scan SText ("%(" ++ k ++ ")s" ++ rest)
  = EKeyStart :: EKey k :: EConv plain "s" :: scan SText rest.
Proof.
  intros H.
  change (scan SText ("%(" ++ k ++ ")s" ++ rest))
    with (EKeyStart :: scan (SKey 1 EmptyString) (k ++ String ")" (String "s" rest))).
  rewrite (scan_key k EmptyString _ H). reflexivity.
Qed.

Lemma parse_keyed (t : list kpiece) :
  plain_keys t = true -> parse (keyed_text t) = keyed_events t.
Proof.
  unfold parse. induction t as [|[s|k] t IH]; intros H; [reflexivity| |].
  - cbn [keyed_text keyed_events]. cbn [plain_keys forallb] in H.
    now rewrite scan_text, (IH H).
  - cbn [keyed_text keyed_events]. cbn [plain_keys forallb] in H.
    apply andb_prop in H as [Hk H].
    rewrite (scan_field k _ Hk), (IH H). reflexivity.
Qed.

Lemma run_keyed (t : list kpiece) (d : pydict) (pending : list fmt_arg) :
  run (keyed_events t) (mkFState (Some d) pending) = fill_keyed t d.
Proof.
  revert pending. induction t as [|[s|k] t IH]; intros pending.
  - cbn. destruct pending; reflexivity.
  - cbn [keyed_events fill_keyed]. now rewrite run_literal_events, IH.
  - cbn [keyed_events fill_keyed run fs_dict fs_pending].
    destruct (dict_get d k) as [v|]; [|reflexivity].
    cbn [run fs_dict fs_pending]. rewrite IH.
    destruct (fill_keyed t d); reflexivity.
Qed.

(** A template with named fields, formatted with a mapping. *)
Lemma format_keyed (t : list kpiece) (d : pydict) :
  plain_keys t = true ->
  format (keyed_text t) (Mapping d) = fill_keyed t d.
Proof.
  intros H. unfold format. rewrite (parse_keyed t H). apply run_keyed.
Qed.

(** X13. Each of the ten statement templates of the schema editor is
    text with named fields and nothing else: formatted with a mapping
    it gives its text with the values of the mapping at the fields, and
    it can fail in one way only, [KeyError] for the first field that the
    mapping lacks. *)
Theorem editor_templates_fill_fields :
  Forall (fun entry =>
            fst entry = keyed_text (snd entry)
            /\ forall d : pydict,
                format (fst entry) (Mapping d) = fill_keyed (snd entry) d)
         editor_templates.
Proof.
  unfold editor_templates.
  repeat (apply Forall_cons;
          [split; [reflexivity
                  | intros d; cbn [fst snd];
                    match goal with
                    | |- format ?f _ = fill_keyed ?t _ =>
                        change f with (keyed_text t)
                    end;
                    apply format_keyed; reflexivity]|]).
  apply Forall_nil.
Qed.

(** ** The editor *)

Section DeletionProperties.

Context {conn : Schema.Connection}.

Import Base.

Lemma accepts_split (sent qs qs' : list string) :
  accepts Schema.cursor_driver sent (qs ++ qs')%list ->
  accepts Schema.cursor_driver sent qs
  /\ accepts Schema.cursor_driver (sent ++ qs)%list qs'.
Proof. apply accepts_app. Qed.

(** The loop over the through tables, given what the deletion of each of
    them sends. *)
Lemma through_tables_deleted (through : list Schema.model) :
  Forall (fun t => forall sent,
              accepts Schema.cursor_driver sent (deletion_statements t sent) ->
              Schema.delete_model t sent
              = (Ok tt, (sent ++ deletion_statements t sent)%list)) through ->
  forall sent,
    accepts Schema.cursor_driver sent
      (through_statements deletion_statements through sent) ->
    for_each (fun t => if Schema.auto_created t
                       then Schema.delete_model t else ret tt) through sent
    = (Ok tt, (sent ++ through_statements deletion_statements through sent)%list).
Proof.
  induction 1 as [|t through Ht _ IH]; intros sent Hacc.
  - cbn. now rewrite app_nil_r.
  - cbn [through_statements] in *. cbn [for_each]. unfold and_then at 1.
    destruct (Schema.auto_created t).
    + apply accepts_split in Hacc as [Hfirst Hrest].
      rewrite (Ht _ Hfirst), (IH _ Hrest), <- app_assoc. reflexivity.
    + cbn [app] in *. rewrite app_nil_r in Hacc. cbn [ret].
      rewrite (IH _ Hacc). now rewrite app_nil_r.
Qed.

(** X14. With through tables too, when the catalog answers every query
    and the driver accepts the statements: [delete_model] succeeds and
    sends exactly the drop-constraint statements of the rows of the
    model's table, then, for each auto-created through table in turn,
    all the statements of the deletion of that table, then the
    [DROP TABLE] of the model; the statements that delete the through
    tables come between, and a through table that is not auto-created
    gets none. *)
Theorem delete_model_sends_deletion_statements
  (Hcatalog : forall sent table,
      exists refs, Schema.get_references sent table = Ok refs)
  (m : Schema.model) :
  forall sent,
    accepts Schema.cursor_driver sent (deletion_statements m sent) ->
    Schema.delete_model m sent
    = (Ok tt, (sent ++ deletion_statements m sent)%list).
Proof.
  induction m as [table auto through IH] using Schema.model_induction.
  intros sent Hacc.
  destruct (Hcatalog sent table) as [refs Hrefs].
  cbn [deletion_statements] in *. rewrite Hrefs in *.
  apply accepts_split in Hacc as [Hdrops Hacc].
  apply accepts_split in Hacc as [Hthrough [Htable _]].
  cbn [Schema.delete_model Schema.db_table].
  unfold and_then at 1. unfold and_then at 1.
  rewrite Hrefs, (drop_references_send _ _ Hdrops).
  unfold Schema.base_delete_model. unfold and_then at 1.
  cbn [Schema.through_models].
  rewrite (through_tables_deleted through IH _ Hthrough).
  cbn [Schema.db_table]. rewrite format_delete_table.
  unfold and_then, lift, ret. rewrite editor_execute_sends.
  unfold answer. unfold drop_table_statement in *.
  cbn [Schema.db_table] in *. rewrite Htable.
  now rewrite <- !app_assoc.
Qed.

End DeletionProperties.

Lemma delete_model_sends_deletion_statements_witness :
  Schema.delete_model (conn := sample_connection) book []
  = (Ok tt, ["ALTER TABLE BOOK_AUTHORS DROP CONSTRAINT FK_BOOK";
             "DROP TABLE BOOK_AUTHORS";
             "DROP TABLE BOOK"]).
Proof.
  apply (delete_model_sends_deletion_statements (conn := sample_connection)).
  - intros sent table. cbn. unfold sample_references.
    destruct (_ && _); eexists; reflexivity.
  - cbn. repeat split.
Defined.

Section MoreEditorProperties.

Context {conn : Schema.Connection}.

Import Base.

(** X15. [delete_model] stops at the first drop-constraint statement
    that the database refuses: the statements for the rows before it
    and the refused one have been sent, the error is the one of the
    database, and neither the remaining constraints nor the table are
    dropped. *)
Theorem delete_model_stops_at_refusal (m : Schema.model) (sent : list string)
  (before after : list Schema.reference) (r : Schema.reference) (e : exn) :
  Schema.get_references sent (Schema.db_table m) = Ok (before ++ r :: after)%list ->
  accepts Schema.cursor_driver sent (map drop_constraint_statement before) ->
  Schema.cursor_driver (sent ++ map drop_constraint_statement before)%list
    (drop_constraint_statement r) = Some e ->
  Schema.delete_model m sent
  = (Raise e,
     (sent ++ map drop_constraint_statement before
        ++ [drop_constraint_statement r])%list).
Proof.
  intros Hrefs Hacc Hrefuse.
  destruct m as [table auto through].
  cbn [Schema.delete_model Schema.db_table] in *.
  unfold and_then at 1. unfold and_then at 1.
  rewrite Hrefs, for_each_app. unfold and_then at 1.
  rewrite (drop_references_send _ _ Hacc).
  cbn [for_each]. unfold and_then at 1.
  rewrite drop_reference_sends. unfold answer. rewrite Hrefuse.
  now rewrite <- app_assoc.
Qed.

(** X16. [_column_has_default] never answers [True]. With a column and a
    table name among the parameters it sends one statement, the catalog
    query with the two names between quotes, and returns [False] when
    the database accepts it, since the inherited [execute] returns
    nothing; it raises what the database raises; without one of the two
    names it raises [KeyError] and sends nothing. *)
Theorem column_has_default_never_true (params : pydict) (sent : list string) :
  Schema._column_has_default params sent
  = match dict_get params "column", dict_get params "table_name" with
    | Some column, Some table_name =>
        (match answer sent (column_has_default_statement column table_name) with
         | Ok _ => Ok false
         | Raise e => Raise e
         end,
         (sent ++ [column_has_default_statement column table_name])%list)
    | None, _ => (Raise (KeyError "column"), sent)
    | Some _, None => (Raise (KeyError "table_name"), sent)
    end.
Proof.
  unfold Schema._column_has_default.
  change Schema.column_has_default_sql
    with (keyed_text column_has_default_pieces).
  rewrite (format_keyed column_has_default_pieces params eq_refl).
  unfold column_has_default_pieces. cbn [fill_keyed].
  destruct (dict_get params "column") as [column|]; [|reflexivity].
  destruct (dict_get params "table_name") as [table_name|]; [|reflexivity].
  cbn [bind]. unfold and_then at 1. cbn [lift ret].
  unfold and_then. rewrite editor_execute_sends.
  replace (_ ++ column ++ _ ++ table_name ++ _ ++ EmptyString)
    with (column_has_default_statement column table_name).
  - destruct (answer sent _) as [[]|e]; reflexivity.
  - unfold column_has_default_statement.
    rewrite !string_app_assoc. cbn [append]. rewrite ?append_nil_r.
    reflexivity.
Qed.

End MoreEditorProperties.

Lemma delete_model_stops_at_refusal_witness :
  Schema.delete_model (conn := locked_connection) book []
  = (Raise (DatabaseError "object in use"),
     ["ALTER TABLE BOOK_AUTHORS DROP CONSTRAINT FK_BOOK"]).
Proof.
  exact (delete_model_stops_at_refusal (conn := locked_connection)
           book [] [] [] ("FK_BOOK", "book_authors")
           (DatabaseError "object in use") eq_refl I eq_refl).
Defined.

(** ** The connection parameters *)

Lemma dict_lookup_set (d : Base.settings) (k k' : string) (v : Base.setting) :
  Base.dict_lookup (Base.dict_set d k v) k'
  = if String.eqb k' k then Some v else Base.dict_lookup d k'.
Proof.
  induction d as [|[k0 v0] d IH]; cbn.
  - reflexivity.
  - destruct (String.eqb_spec k k0) as [->|Hk]; cbn.
    + destruct (String.eqb k' k0); reflexivity.
    + rewrite IH. destruct (String.eqb_spec k' k0) as [->|Hk'].
      * destruct (String.eqb_spec k0 k) as [E|_]; [congruence | reflexivity].
      * reflexivity.
Qed.

Lemma dict_lookup_absent (d : Base.settings) (k : string) :
  ~ In k (map fst d) -> Base.dict_lookup d k = None.
Proof.
  induction d as [|[k0 v0] d IH]; cbn; intros H; [reflexivity|].
  destruct (String.eqb_spec k k0) as [->|_]; [tauto|].
  apply IH. tauto.
Qed.

(** [update] with a dict: its entries win over those that were there. *)
Lemma dict_lookup_update (d other : Base.settings) (k : string) :
  NoDup (map fst other) ->
  Base.dict_lookup (Base.dict_update d other) k
  = match Base.dict_lookup other k with
    | Some v => Some v
    | None => Base.dict_lookup d k
    end.
Proof.
  unfold Base.dict_update. revert d.
  induction other as [|[k0 v0] other IH]; intros d Hnd; [reflexivity|].
  cbn [map fst] in Hnd. inversion Hnd as [|? ? Hnotin Hnd']; subst.
  cbn [fold_left fst snd Base.dict_lookup].
  rewrite (IH _ Hnd'), dict_lookup_set.
  destruct (String.eqb_spec k k0) as [->|_]; [|reflexivity].
  now rewrite (dict_lookup_absent _ _ Hnotin).
Qed.

(** X17. [get_connection_params] refuses settings without a name, and
    otherwise returns parameters in which a setting that is set (user,
    password, host, port) wins over the option of the same name, an
    option wins over the database name and over the default character
    set [UTF8], and a key that is none of these is absent. *)
Theorem connection_params_precedence (s : Base.settings_dict) :
  NoDup (map fst (Base.OPTIONS s)) ->
  if Base.truthy (Base.NAME s)
  then exists params,
         Base.get_connection_params s = Base.Configured params
         /\ forall k, Base.dict_lookup params k = expected_param s k
  else exists msg,
         Base.get_connection_params s = Base.ImproperlyConfigured msg.
Proof.
  intros Hnd. unfold Base.get_connection_params.
  destruct (Base.truthy (Base.NAME s)); cbn [negb];
    [|eexists; reflexivity].
  eexists. split; [reflexivity|].
  intros k. unfold expected_param.
  assert (Hbase : Base.dict_lookup
                    (Base.dict_update
                       (Base.dict_set [("charset", Base.SStr "UTF8")]
                          "database" (Base.NAME s))
                       (Base.OPTIONS s)) k
                  = match Base.dict_lookup (Base.OPTIONS s) k with
                    | Some v => Some v
                    | None =>
                        if String.eqb k "database" then Some (Base.NAME s)
                        else if String.eqb k "charset"
                             then Some (Base.SStr "UTF8")
                             else None
                    end).
  { rewrite (dict_lookup_update _ _ _ Hnd).
    destruct (Base.dict_lookup (Base.OPTIONS s) k); [reflexivity|].
    cbn. destruct (String.eqb_spec k "charset") as [->|_]; reflexivity. }
  destruct (Base.truthy (Base.PORT s)), (Base.truthy (Base.HOST s)),
    (Base.truthy (Base.PASSWORD s)), (Base.truthy (Base.USER s));
    rewrite ?dict_lookup_set, ?andb_true_r, ?andb_false_r, Hbase;
    reflexivity.
Qed.

Lemma connection_params_precedence_witness :
  exists params,
    Base.get_connection_params sample_settings = Base.Configured params
    /\ forall k, Base.dict_lookup params k = expected_param sample_settings k.
Proof.
  apply (connection_params_precedence sample_settings).
  cbn. apply NoDup_cons; [cbn; intuition discriminate|].
  apply NoDup_cons; [cbn; intuition discriminate|].
  apply NoDup_cons; [cbn; intuition discriminate|].
  apply NoDup_nil.
Defined.

